(** * The fund-universe notebook ([02_raw_data_walkthrough.ipynb]) as list programs

    The notebook is one linear pandas pipeline: link CRSP share classes
    and S12 holdings reports to funds, aggregate both per fund and year,
    join them and filter the joined table.

    A dataframe is modelled as the list of its rows (one record type per
    table, named after the notebook's variable), a nullable column as an
    [option], a [datetime64] column as a calendar date.  Float arithmetic
    is idealised as exact arithmetic on rationals ([Q]) and [NaN] is
    [None]; a division by zero, which the rationals do not have, is
    reported as [DivisionByZero].  Every definition follows one statement
    of a notebook cell, quoted in its comment. *)

From Stdlib Require Import ZArith QArith Qround List Bool Lia Lqa Sorted Permutation.
Import ListNotations.

Open Scope Z_scope.

(** ** Ordered keys

    [groupby] and [sort_values] order rows by their key columns. *)

Class Ord (K : Type) := { cmp : K -> K -> comparison }.

Class OrdLaws (K : Type) `{Ord K} := {
  cmp_eq : forall x y : K, cmp x y = Eq <-> x = y;
  cmp_antisym : forall x y : K, cmp y x = CompOpp (cmp x y);
  cmp_lt_trans : forall x y z : K, cmp x y = Lt -> cmp y z = Lt -> cmp x z = Lt
}.

#[export] Instance Z_Ord : Ord Z := { cmp := Z.compare }.

#[export] Instance Q_Ord : Ord Q := { cmp := Qcompare }.

(** Lexicographic order on a tuple of key columns. *)
#[export] Instance prod_Ord {A B} `{Ord A} `{Ord B} : Ord (A * B) :=
  { cmp := fun p q =>
      match cmp (fst p) (fst q) with
      | Eq => cmp (snd p) (snd q)
      | c => c
      end }.

(** A nullable key; pandas sorts missing values last ([na_position='last']). *)
#[export] Instance option_Ord {A} `{Ord A} : Ord (option A) :=
  { cmp := fun p q =>
      match p, q with
      | Some x, Some y => cmp x y
      | Some _, None => Lt
      | None, Some _ => Gt
      | None, None => Eq
      end }.

Definition eqb_key {K} `{Ord K} (x y : K) : bool :=
  match cmp x y with Eq => true | _ => false end.

Definition leb_key {K} `{Ord K} (x y : K) : bool :=
  match cmp x y with Gt => false | _ => true end.

Definition lt_key {K} `{Ord K} (x y : K) : Prop := cmp x y = Lt.

(** ** Calendar dates ([datetime64] columns [caldt] and [fdate]) *)

Inductive month_name :=
  Jan | Feb | Mar | Apr | May | Jun | Jul | Aug | Sep | Oct | Nov | Dec.

Definition month_number (m : month_name) : Z :=
  match m with
  | Jan => 1 | Feb => 2 | Mar => 3 | Apr => 4 | May => 5 | Jun => 6
  | Jul => 7 | Aug => 8 | Sep => 9 | Oct => 10 | Nov => 11 | Dec => 12
  end.

Record date := mkdate { dyear : Z; dmonth : month_name; dday : Z }.

(** [.dt.year] and [.dt.month] *)
Definition dt_year (d : date) : Z := dyear d.
Definition dt_month (d : date) : Z := month_number (dmonth d).

Definition date_key (d : date) : Z * (Z * Z) := (dyear d, (dt_month d, dday d)).

#[export] Instance date_Ord : Ord date :=
  { cmp := fun d e => cmp (date_key d) (date_key e) }.

(** Day number of a date in the proleptic Gregorian calendar (days since
    1970-01-01); the difference of two timestamps is the difference of
    their day numbers. *)
Definition day_number (d : date) : Z :=
  let m := dt_month d in
  let y := if m <=? 2 then dyear d - 1 else dyear d in
  let era := y / 400 in
  let yoe := y - era * 400 in
  let doy := (153 * (if 2 <? m then m - 3 else m + 9) + 2) / 5 + dday d - 1 in
  let doe := yoe * 365 + yoe / 4 - yoe / 100 + doy in
  era * 146097 + doe - 719468.

(** ** Floats

    A float column is [option Q]: [None] is [NaN]. *)

Definition float := option Q.

Definition isnull {A} (x : option A) : bool :=
  match x with None => true | Some _ => false end.

Definition notnull {A} (x : option A) : bool := negb (isnull x).

(** [Series.fillna(v)] *)
Definition fillna (v : Q) (x : float) : Q :=
  match x with Some q => q | None => v end.

Definition fmul (x y : float) : float :=
  match x, y with Some a, Some b => Some (a * b)%Q | _, _ => None end.

Definition fsub (x y : float) : float :=
  match x, y with Some a, Some b => Some (a - b)%Q | _, _ => None end.

(** Comparisons with [NaN] are false. *)
Definition Qltb (a b : Q) : bool :=
  match Qcompare a b with Lt => true | _ => false end.

Definition fgt (x : float) (c : Q) : bool :=
  match x with Some a => Qltb c a | None => false end.

Definition flt (x : float) (c : Q) : bool :=
  match x with Some a => Qltb a c | None => false end.

(** [Series.between(lo, hi)], both ends inclusive. *)
Definition between (x : float) (lo hi : Q) : bool :=
  match x with Some a => Qle_bool lo a && Qle_bool a hi | None => false end.

(** A division whose denominator is zero is reported instead of computed. *)
Inductive result (A : Type) :=
  | Ok (a : A)
  | DivisionByZero.
Arguments Ok {A} a.
Arguments DivisionByZero {A}.

Definition bind {A B} (m : result A) (f : A -> result B) : result B :=
  match m with Ok a => f a | DivisionByZero => DivisionByZero end.

Notation "x <- m ;; k" := (bind m (fun x => k))
  (at level 61, m at next level, right associativity).

Fixpoint mapM {A B} (f : A -> result B) (l : list A) : result (list B) :=
  match l with
  | [] => Ok []
  | a :: t => b <- f a ;; bs <- mapM f t ;; Ok (b :: bs)
  end.

Definition fdiv (x y : float) : result float :=
  match y with
  | None => Ok None
  | Some b =>
      if Qeq_bool b 0 then DivisionByZero
      else Ok (match x with Some a => Some (a / b)%Q | None => None end)
  end.

(** [Series.sum()] skips missing values; [Series.mean()] of a column
    without missing values is the sum over the count. *)
Definition Qsum (l : list Q) : Q := fold_right Qplus 0%Q l.

Fixpoint sum_skipna (l : list float) : Q :=
  match l with
  | [] => 0%Q
  | Some q :: t => (q + sum_skipna t)%Q
  | None :: t => sum_skipna t
  end.

Definition mean (l : list Q) : Q :=
  (Qsum l / inject_Z (Z.of_nat (length l)))%Q.

Definition Qprod (l : list Q) : Q := fold_right Qmult 1%Q l.

(** ** [sort_values] and [groupby] *)

Section Frames.
Context {A K : Type} `{Ord K}.
Variable key : A -> K.

(** Stable sort of the rows by [key] ([sort_values] on several columns
    is a stable lexsort). *)
Fixpoint insert_row (r : A) (rows : list A) : list A :=
  match rows with
  | [] => [r]
  | first :: rest =>
      if leb_key (key r) (key first) then r :: rows else first :: insert_row r rest
  end.

Definition sort_values (l : list A) : list A := fold_right insert_row [] l.

(** The order of the rows of a sorted frame. *)
Definition le_row (a b : A) : Prop := leb_key (key a) (key b) = true.

(** The distinct keys in increasing order: the group labels. *)
Fixpoint insert_key (k : K) (l : list K) : list K :=
  match l with
  | [] => [k]
  | h :: t =>
      match cmp k h with
      | Lt => k :: l
      | Eq => l
      | Gt => h :: insert_key k t
      end
  end.

Definition group_keys (l : list A) : list K :=
  fold_right insert_key [] (map key l).

(** The rows of one group, in their order in the frame. *)
Definition group (k : K) (l : list A) : list A :=
  filter (fun r => eqb_key (key r) k) l.

(** [df.groupby(key)]: the groups sorted by key. *)
Definition groupby (l : list A) : list (K * list A) :=
  map (fun k => (k, group k l)) (group_keys l).
End Frames.

(** ** The four input tables *)

(** [df_crsp]: CRSP monthly returns and TNA, one row per share class and month. *)
Module Crsp.
Record t := mk { crsp_fundno : Z; caldt : date; mret : float; mtna : float }.
End Crsp.

(** [df_mflink1]: share class to fund ([wficn]), static. *)
Module Mflink1.
Record t := mk { crsp_fundno : Z; wficn : option Z }.
End Mflink1.

(** [df_s12]: quarterly holdings reports. *)
Module S12.
Record t := mk { fundno : Z; fdate : date; assets : float; useq_tna_k : float }.
End S12.

(** [df_mflink2]: report id to fund ([wficn]), by date. *)
Module Mflink2.
Record t := mk { fdate : date; fundno : Z; wficn : option Z }.
End Mflink2.

(** ** CRSP side *)

(** [df_crsp.merge(df_mflink1, how="inner", on="crsp_fundno")]: every pair
    of a left row and a right row with the same key, in the order of the
    left rows. *)
Definition merge_mflink1 (df_crsp : list Crsp.t) (df_mflink1 : list Mflink1.t)
  : list (Crsp.t * option Z) :=
  flat_map (fun r =>
      map (fun l => (r, Mflink1.wficn l))
        (filter (fun l => Mflink1.crsp_fundno l =? Crsp.crsp_fundno r) df_mflink1))
    df_crsp.

(** A row of [df_crsp] once it has its [wficn], [year] and [month] (the
    columns [caldt] and [crsp_fundno] are not read again). *)
Module Linked.
Record t := mk { wficn : Z; year : Z; month : Z; mret : float; mtna : float }.
Definition key (r : t) : Z * (Z * Z) := (wficn r, (year r, month r)).
End Linked.

(** [sort_values(["caldt", "wficn"])], the [year] and [month] columns,
    [df_crsp[df_crsp['wficn'].notnull()]] and [astype('int')]. *)
Definition df_crsp_linked (df_crsp : list Crsp.t) (df_mflink1 : list Mflink1.t)
  : list Linked.t :=
  flat_map (fun p =>
      match snd p with
      | Some w =>
          [Linked.mk w (dt_year (Crsp.caldt (fst p))) (dt_month (Crsp.caldt (fst p)))
             (Crsp.mret (fst p)) (Crsp.mtna (fst p))]
      | None => []
      end)
    (sort_values (fun p => (Crsp.caldt (fst p), snd p))
       (merge_mflink1 df_crsp df_mflink1)).

Module FundMonth.
Record t := mk { wficn : Z; year : Z; month : Z; mret : Q; mtna : float }.
Definition key (r : t) : Z * (Z * Z) := (wficn r, (year r, month r)).
Definition fund_year (r : t) : Z * Z := (wficn r, year r).
End FundMonth.

(** [df_crsp['mret'] = df_crsp['mret'].fillna(0)]: from here on [mret]
    has no missing value. *)
Definition fill_mret (r : Linked.t) : FundMonth.t :=
  FundMonth.mk (Linked.wficn r) (Linked.year r) (Linked.month r)
    (fillna 0 (Linked.mret r)) (Linked.mtna r).

(** [df_crsp] as the aggregations read it. *)
Definition clean_crsp (df_crsp : list Crsp.t) (df_mflink1 : list Mflink1.t)
  : list FundMonth.t :=
  map fill_mret (df_crsp_linked df_crsp df_mflink1).

(** *** Yearly returns *)

Module RetMonth.
Record t := mk { wficn : Z; year : Z; month : Z; mret : Q }.
(** [df_ret["mult"] = 1 + df_ret["mret"]] *)
Definition mult (r : t) : Q := (1 + mret r)%Q.
Definition key (r : t) : Z * (Z * Z) := (wficn r, (year r, month r)).
Definition fund_year (r : t) : Z * Z := (wficn r, year r).
Definition year_month (r : t) : Z * Z := (year r, month r).
End RetMonth.

(** [df_crsp.groupby(["wficn", "year", "month"])["mret"].mean().reset_index()] *)
Definition monthly_mean (df_crsp : list FundMonth.t) : list RetMonth.t :=
  map (fun g =>
      RetMonth.mk (fst (fst g)) (fst (snd (fst g))) (snd (snd (fst g)))
        (mean (map FundMonth.mret (snd g))))
    (groupby FundMonth.key df_crsp).

(** The row labels [0, 1, ...] that [reset_index] gives. *)
Definition reset_index {A} (l : list A) : list (nat * A) :=
  combine (seq 0 (length l)) l.

(** The running product of each group seen so far. *)
Fixpoint running (k : Z * Z) (acc : list (Z * Z * Q)) : Q :=
  match acc with
  | [] => 1%Q
  | (k', p) :: t => if eqb_key k k' then p else running k t
  end.

(** [groupby(["wficn", "year"])["mult"].cumprod()]: the rows are visited in
    frame order and each gets the product of its group's [mult] up to and
    including itself, under its own row label. *)
Fixpoint group_cumprod (acc : list (Z * Z * Q)) (l : list (nat * RetMonth.t))
  : list (nat * Q) :=
  match l with
  | [] => []
  | (i, r) :: t =>
      let p := (running (RetMonth.fund_year r) acc * RetMonth.mult r)%Q in
      (i, p) :: group_cumprod ((RetMonth.fund_year r, p) :: acc) t
  end.

(** Assigning a series to a column aligns it on the row labels. *)
Fixpoint loc (i : nat) (s : list (nat * Q)) : float :=
  match s with
  | [] => None
  | (j, v) :: t => if Nat.eqb i j then Some v else loc i t
  end.

Module Ret.
Record t := mk { wficn : Z; year : Z; month : Z; mret : Q; mult : Q;
                 cumret : float; yret : float }.
End Ret.

(** [df_ret["cumret"] = df_ret.sort_values(["year", "month"])
      .groupby(["wficn", "year"])["mult"].cumprod()] *)
Definition cumret (monthly : list (nat * RetMonth.t)) : list (nat * Q) :=
  group_cumprod []
    (sort_values (fun ir => RetMonth.year_month (snd ir)) monthly).

(** [df_ret.query("month==12")] and [df_ret['yret'] = df_ret['cumret'] - 1] *)
Definition df_ret (df_crsp : list FundMonth.t) : list Ret.t :=
  let monthly := reset_index (monthly_mean df_crsp) in
  let series := cumret monthly in
  map (fun ir =>
      let r := snd ir in
      let c := loc (fst ir) series in
      Ret.mk (RetMonth.wficn r) (RetMonth.year r) (RetMonth.month r)
        (RetMonth.mret r) (RetMonth.mult r) c (fsub c (Some 1%Q)))
    (filter (fun ir => RetMonth.month (snd ir) =? 12) monthly).

(** The months of year [y] in which fund [w] has rows in [df_crsp], in
    increasing order; the returns of the fund's share-class rows in one
    of them; and the product of one plus the mean return of each month. *)
Definition months_of (df_crsp : list FundMonth.t) (w y : Z) : list Z :=
  map (fun k => snd (snd k))
    (filter (fun k => eqb_key (w, y) (fst k, fst (snd k)))
       (group_keys FundMonth.key df_crsp)).

Definition month_returns (df_crsp : list FundMonth.t) (w y m : Z) : list Q :=
  map FundMonth.mret (group FundMonth.key (w, (y, m)) df_crsp).

Definition compounded (df_crsp : list FundMonth.t) (w y : Z) : Q :=
  Qprod (map (fun m => 1 + mean (month_returns df_crsp w y m))%Q
           (months_of df_crsp w y)).

(** [v] is the return of fund [w] in year [y] compounded over the months
    the fund has in that year: the strictly increasing list of the months
    with a row, and the product of one plus the mean return of each. *)
Definition compounds_monthly_means (df_crsp : list FundMonth.t) (w y : Z) (v : float)
  : Prop :=
  exists (months : list Z) (q : Q),
    StronglySorted Z.lt months /\
    (forall m, In m months <->
       exists x, In x df_crsp /\ FundMonth.wficn x = w /\ FundMonth.year x = y
                 /\ FundMonth.month x = m) /\
    v = Some q /\
    q == Qprod (map (fun m => 1 + mean (month_returns df_crsp w y m))%Q months) - 1.

(** *** Year-end TNA *)

Module Tna.
Record t := mk { wficn : Z; year : Z; crsp_tna : Q }.
End Tna.

(** [df_crsp.query("month==12").groupby(["wficn", "year"])["mtna"].sum()
      .reset_index().rename(columns={"mtna": "crsp_tna"})] *)
Definition df_tna (df_crsp : list FundMonth.t) : list Tna.t :=
  map (fun g =>
      Tna.mk (fst (fst g)) (snd (fst g)) (sum_skipna (map FundMonth.mtna (snd g))))
    (groupby FundMonth.fund_year
       (filter (fun r => FundMonth.month r =? 12) df_crsp)).

(** The December TNA values of the share-class rows of fund [w] in year [y]. *)
Definition december_tna (df_crsp : list FundMonth.t) (w y : Z) : list float :=
  map FundMonth.mtna
    (filter (fun x => (FundMonth.wficn x =? w) && (FundMonth.year x =? y)
                      && (FundMonth.month x =? 12))
       df_crsp).

Module CrspClean.
Record t := mk { wficn : Z; year : Z; crsp_tna : Q; yret : float }.
End CrspClean.

(** [pd.merge(df_tna, df_ret)[['wficn', 'year', 'crsp_tna', 'yret']]]: an
    inner join on the shared columns [wficn] and [year]. *)
Definition df_crsp_clean (df_crsp : list FundMonth.t) : list CrspClean.t :=
  flat_map (fun a =>
      map (fun b => CrspClean.mk (Tna.wficn a) (Tna.year a) (Tna.crsp_tna a) (Ret.yret b))
        (filter (fun b => (Ret.wficn b =? Tna.wficn a) && (Ret.year b =? Tna.year a))
           (df_ret df_crsp)))
    (df_tna df_crsp).

(** ** S12 side *)

(** [pd.merge_asof(left, right, by='fundno', on='fdate', direction='nearest')]
    looks, among the right rows with the left row's [fundno], for the last
    one dated at or before the left row and the first one dated at or
    after it, and keeps the closer of the two (the earlier one on a tie). *)
Definition asof_backward (right : list Mflink2.t) (fundno : Z) (d : date)
  : option Mflink2.t :=
  fold_left (fun found l =>
      if (Mflink2.fundno l =? fundno) && leb_key (Mflink2.fdate l) d
      then Some l else found)
    right None.

Definition asof_forward (right : list Mflink2.t) (fundno : Z) (d : date)
  : option Mflink2.t :=
  find (fun l => (Mflink2.fundno l =? fundno) && leb_key d (Mflink2.fdate l)) right.

Definition asof_nearest (right : list Mflink2.t) (fundno : Z) (d : date)
  : option Mflink2.t :=
  match asof_backward right fundno d, asof_forward right fundno d with
  | Some b, Some f =>
      if day_number d - day_number (Mflink2.fdate b)
         <=? day_number (Mflink2.fdate f) - day_number d
      then Some b else Some f
  | Some b, None => Some b
  | None, f => f
  end.

(** The [wficn] column that the join adds to a left row. *)
Definition asof_wficn (right : list Mflink2.t) (r : S12.t) : option Z :=
  match asof_nearest right (S12.fundno r) (S12.fdate r) with
  | Some l => Mflink2.wficn l
  | None => None
  end.

Module Holding.
Record t := mk { year : Z; fdate : date; wficn : Z; assets : float; useq_tna_k : float }.
End Holding.

(** The [year] column, both [sort_values(["fdate", "fundno"])], the
    [merge_asof] and [df_s12[df_s12['wficn'].notnull()]]. *)
Definition df_s12_linked (df_s12 : list S12.t) (df_mflink2 : list Mflink2.t)
  : list Holding.t :=
  let right := sort_values (fun l => (Mflink2.fdate l, Mflink2.fundno l)) df_mflink2 in
  flat_map (fun r =>
      match asof_wficn right r with
      | Some w =>
          [Holding.mk (dt_year (S12.fdate r)) (S12.fdate r) w
             (S12.assets r) (S12.useq_tna_k r)]
      | None => []
      end)
    (sort_values (fun r => (S12.fdate r, S12.fundno r)) df_s12).

Module Report.
Record t := mk { year : Z; fdate : date; wficn : Z; assets : float; useq_tna_k : Q }.
End Report.

(** The grouping key of the first aggregation, with
    [df_s12['assets'] = df_s12['assets'].fillna(0)] applied. *)
Definition report_key (r : Holding.t) : Z * (date * (Z * Q)) :=
  (Holding.year r, (Holding.fdate r, (Holding.wficn r, fillna 0 (Holding.assets r)))).

(** [np.where(df_eq['assets'] == 0, np.nan, df_eq['assets'])] *)
Definition zero_to_nan (a : Q) : float :=
  if Qeq_bool a 0 then None else Some a.

(** [df_s12.groupby(['year', 'fdate', 'wficn', 'assets'])['useq_tna_k'].sum()
      .reset_index()] followed by the recoding of zero [assets]. *)
Definition df_reports (df_s12 : list Holding.t) : list Report.t :=
  map (fun g =>
      let k := fst g in
      Report.mk (fst k) (fst (snd k)) (fst (snd (snd k)))
        (zero_to_nan (snd (snd (snd k))))
        (sum_skipna (map Holding.useq_tna_k (snd g))))
    (groupby report_key df_s12).

(** [GroupBy.last()] gives, column by column, the last value of the group
    that is not missing. *)
Fixpoint last_valid {A} (l : list (option A)) : option A :=
  match l with
  | [] => None
  | x :: t =>
      match last_valid t with
      | Some v => Some v
      | None => x
      end
  end.

Module Equity.
Record t := mk { wficn : Z; year : Z; assets : float; useq_tna_k : float }.
End Equity.

(** [df_eq.groupby(['wficn', 'year'])[['assets', 'useq_tna_k']].last()
      .reset_index()] *)
Definition df_eq (reports : list Report.t) : list Equity.t :=
  map (fun g =>
      Equity.mk (fst (fst g)) (snd (fst g))
        (last_valid (map Report.assets (snd g)))
        (last_valid (map (fun r => Some (Report.useq_tna_k r)) (snd g))))
    (groupby (fun r => (Report.wficn r, Report.year r)) reports).

(** ** The joined fund-year table and the universe filters *)

Module Combo.
Record t := mk { wficn : Z; year : Z; crsp_tna : Q; yret : float;
                 assets : float; useq_tna_k : float }.
End Combo.

(** [pd.merge(df_crsp_clean, df_eq, on=["wficn", "year"], how="inner")
      .sort_values("year")].  The sort on one column need not be stable in
    pandas; the order among the rows of one year is used nowhere below. *)
Definition df_combo (df_crsp_clean : list CrspClean.t) (df_eq : list Equity.t)
  : list Combo.t :=
  sort_values Combo.year
    (flat_map (fun a =>
         map (fun b =>
             Combo.mk (CrspClean.wficn a) (CrspClean.year a) (CrspClean.crsp_tna a)
               (CrspClean.yret a) (Equity.assets b) (Equity.useq_tna_k b))
           (filter (fun b => (Equity.wficn b =? CrspClean.wficn a)
                             && (Equity.year b =? CrspClean.year a)) df_eq))
       df_crsp_clean).

(** What the recoding of zero [assets] leaves: a missing value or a
    value other than zero. *)
Definition nonzero_or_missing (a : float) : Prop :=
  match a with Some q => ~ q == 0 | None => True end.

(** [df_combo.query("crsp_tna > 1")] *)
Definition tna_above_1 (r : Combo.t) : bool := Qltb 1 (Combo.crsp_tna r).

Definition filter_tna (df : list Combo.t) : list Combo.t := filter tna_above_1 df.

Module ComboT.
Record t := mk { row : Combo.t; tna_ratio : float }.
End ComboT.

(** [np.where(cond, a, b)] on one row; pandas has computed [b] for every
    row before the selection. *)
Definition np_where {A} (cond : bool) (a b : A) : A := if cond then a else b.

(** [df_combo["tna_ratio"] = np.where(df_combo["assets"].isnull(), 1,
      df_combo["crsp_tna"] * 1e6 / df_combo["assets"] / 1e4)] *)
Definition tna_ratio (r : Combo.t) : result float :=
  x <- fdiv (Some (Combo.crsp_tna r * 1000000)%Q) (Combo.assets r) ;;
  y <- fdiv x (Some 10000%Q) ;;
  Ok (np_where (isnull (Combo.assets r)) (Some 1%Q) y).

Definition add_tna_ratio (df : list Combo.t) : result (list ComboT.t) :=
  mapM (fun r => v <- tna_ratio r ;; Ok (ComboT.mk r v)) df.

(** [df_combo.query("tna_ratio > 0.5 and tna_ratio < 2")] *)
Definition tna_ratio_ok (r : ComboT.t) : bool :=
  fgt (ComboT.tna_ratio r) (1 # 2) && flt (ComboT.tna_ratio r) 2.

Definition filter_tna_ratio (df : list ComboT.t) : list ComboT.t :=
  filter tna_ratio_ok df.

Module ComboE.
Record t := mk { row : ComboT.t; eq_ratio_1 : float; eq_ratio_2 : float }.
(** The columns of the joined table under the ratio columns. *)
Definition base (r : t) : Combo.t := ComboT.row (row r).
End ComboE.

(** [df_combo["eq_ratio_1"] = df_combo["useq_tna_k"] * 1e3
      / (df_combo["crsp_tna"] * 1e6)] *)
Definition eq_ratio_1 (r : Combo.t) : result float :=
  fdiv (fmul (Combo.useq_tna_k r) (Some 1000%Q))
    (Some (Combo.crsp_tna r * 1000000)%Q).

(** [df_combo["eq_ratio_2"] = np.where(df_combo["assets"].isnull(), 1,
      df_combo["useq_tna_k"] * 1e3 / (df_combo["assets"] * 1e4))] *)
Definition eq_ratio_2 (r : Combo.t) : result float :=
  y <- fdiv (fmul (Combo.useq_tna_k r) (Some 1000%Q))
         (fmul (Combo.assets r) (Some 10000%Q)) ;;
  Ok (np_where (isnull (Combo.assets r)) (Some 1%Q) y).

Definition add_eq_ratios (df : list ComboT.t) : result (list ComboE.t) :=
  mapM (fun t =>
      e1 <- eq_ratio_1 (ComboT.row t) ;;
      e2 <- eq_ratio_2 (ComboT.row t) ;;
      Ok (ComboE.mk t e1 e2))
    df.

(** [df_combo[df_combo["eq_ratio_1"].between(0.8, 1.05)
             | df_combo["eq_ratio_2"].between(0.8, 1.05)]] *)
Definition eq_ratio_ok (r : ComboE.t) : bool :=
  between (ComboE.eq_ratio_1 r) (4 # 5) (21 # 20)
  || between (ComboE.eq_ratio_2 r) (4 # 5) (21 # 20).

Definition filter_eq_ratio (df : list ComboE.t) : list ComboE.t :=
  filter eq_ratio_ok df.

(** The three filters in the order of the notebook. *)
Definition universe_filters (df : list Combo.t) : result (list ComboE.t) :=
  t <- add_tna_ratio (filter_tna df) ;;
  e <- add_eq_ratios (filter_tna_ratio t) ;;
  Ok (filter_eq_ratio e).

(** A filter strictly narrows a table when it drops at least one row. *)
Definition strictly_narrows {A} (f : list A -> list A) (df : list A) : Prop :=
  (length (f df) < length df)%nat.

(** The conditions of the three boolean masks, as statements on a
    record.  A missing ratio meets none of them. *)
Definition tna_over_1 (r : Combo.t) : Prop := (1 < Combo.crsp_tna r)%Q.

Definition tna_ratio_in_bounds (r : ComboT.t) : Prop :=
  exists q, ComboT.tna_ratio r = Some q /\ (1 # 2 < q)%Q /\ (q < 2)%Q.

Definition eq_ratio_in_bounds (r : ComboE.t) : Prop :=
  (exists q, ComboE.eq_ratio_1 r = Some q /\ (4 # 5 <= q <= 21 # 20)%Q) \/
  (exists q, ComboE.eq_ratio_2 r = Some q /\ (4 # 5 <= q <= 21 # 20)%Q).

(** A filter keeps exactly the records that meet a condition when, on
    every table, it goes through the records in order, keeps the record
    that meets the condition and drops the one that does not. *)
Definition keeps_exactly {A} (cond : A -> Prop) (f : list A -> list A) : Prop :=
  f [] = [] /\
  forall (r : A) (rows : list A),
    (cond r -> f (r :: rows) = r :: f rows) /\
    (~ cond r -> f (r :: rows) = f rows).

(** ** The whole notebook *)

Definition holdings (df_s12 : list S12.t) (df_mflink2 : list Mflink2.t) : list Equity.t :=
  df_eq (df_reports (df_s12_linked df_s12 df_mflink2)).

Definition joined (df_crsp : list Crsp.t) (df_mflink1 : list Mflink1.t)
    (df_s12 : list S12.t) (df_mflink2 : list Mflink2.t) : list Combo.t :=
  df_combo (df_crsp_clean (clean_crsp df_crsp df_mflink1))
    (holdings df_s12 df_mflink2).

Definition universe (df_crsp : list Crsp.t) (df_mflink1 : list Mflink1.t)
    (df_s12 : list S12.t) (df_mflink2 : list Mflink2.t) : result (list ComboE.t) :=
  universe_filters (joined df_crsp df_mflink1 df_s12 df_mflink2).

(** ** A small universe

    Fund 7 has the share classes 1 and 2 and the report id 5, fund 8 the
    share class 3 and the report id 6; share class 9 and report id 4 are
    in no link table. *)

Definition sample_crsp : list Crsp.t :=
  [Crsp.mk 1 (mkdate 2000 Jan 31) (Some (1 # 100)) (Some 90%Q);
   Crsp.mk 2 (mkdate 2000 Jan 31) None None;
   Crsp.mk 1 (mkdate 2000 Feb 29) (Some (-2 # 100)) (Some 95%Q);
   Crsp.mk 9 (mkdate 2000 Feb 29) (Some (7 # 100)) (Some 10%Q);
   Crsp.mk 1 (mkdate 2000 Dec 29) (Some (3 # 100)) (Some 100%Q);
   Crsp.mk 2 (mkdate 2000 Dec 29) (Some (3 # 100)) (Some 50%Q);
   Crsp.mk 3 (mkdate 2001 Nov 30) (Some (1 # 100)) (Some 2%Q);
   Crsp.mk 3 (mkdate 2001 Dec 31) (Some (2 # 100)) (Some 2%Q)].

Definition sample_mflink1 : list Mflink1.t :=
  [Mflink1.mk 1 (Some 7); Mflink1.mk 2 (Some 7); Mflink1.mk 3 (Some 8)].

Definition sample_s12 : list S12.t :=
  [S12.mk 5 (mkdate 2000 Mar 31) (Some 14000%Q) (Some 130000%Q);
   S12.mk 4 (mkdate 2000 Jun 30) (Some 500%Q) (Some 4000%Q);
   S12.mk 5 (mkdate 2000 Dec 31) (Some 15000%Q) (Some 140000%Q);
   S12.mk 6 (mkdate 2001 Dec 31) None (Some 2000%Q)].

Definition sample_mflink2 : list Mflink2.t :=
  [Mflink2.mk (mkdate 1999 Dec 31) 5 (Some 7);
   Mflink2.mk (mkdate 2001 Jun 30) 6 (Some 8)].

(** ** Keys and counts read off the tables *)

(** The fund and year of a row of each fund-year table. *)
Module FundYear.
Definition tna (t : Tna.t) : Z * Z := (Tna.wficn t, Tna.year t).
Definition ret (r : Ret.t) : Z * Z := (Ret.wficn r, Ret.year r).
Definition crsp_clean (c : CrspClean.t) : Z * Z := (CrspClean.wficn c, CrspClean.year c).
Definition equity (e : Equity.t) : Z * Z := (Equity.wficn e, Equity.year e).
Definition report (r : Report.t) : Z * Z := (Report.wficn r, Report.year r).
Definition combo (r : Combo.t) : Z * Z := (Combo.wficn r, Combo.year r).
End FundYear.

(** [df_combo.groupby("year").size().reset_index().rename(columns={0: "count"})],
    which the notebook shows before the filters and after each of them. *)
Definition year_counts {A} (year : A -> Z) (df : list A) : list (Z * nat) :=
  map (fun g => (fst g, length (snd g))) (groupby year df).

(** The count that such a table shows for a year: none when the year has
    no line. *)
Definition count_of (y : Z) (counts : list (Z * nat)) : nat :=
  match find (fun c => fst c =? y) counts with
  | Some c => snd c
  | None => 0%nat
  end.

(** The order of the rows of [df_reports]: by year, then by report date. *)
Definition report_le (a b : Report.t) : Prop :=
  leb_key (Report.year a, Report.fdate a) (Report.year b, Report.fdate b) = true.

(** A report is dated no later than another. *)
Definition not_after (a b : Report.t) : Prop :=
  leb_key (Report.fdate a) (Report.fdate b) = true.

(** [df_crsp['mtna'].isnull().mean()]: the share of the rows without a
    value; the mean of an empty column is [NaN]. *)
Definition isnull_mean (col : list float) : float :=
  match col with
  | [] => None
  | _ => Some (mean (map (fun v => if isnull v then 1%Q else 0%Q) col))
  end.

(** *** The summary by year *)

(** [Series.mean()] and [Series.median()] skip the missing values and give
    [NaN] when no value is left; the median of an even number of values is
    the mean of the two in the middle. *)
Definition dropna (col : list float) : list Q :=
  flat_map (fun v => match v with Some q => [q] | None => [] end) col.

Definition mean_skipna (col : list float) : float :=
  match dropna col with
  | [] => None
  | vals => Some (mean vals)
  end.

Definition median_skipna (col : list float) : float :=
  let vals := sort_values (fun q : Q => q) (dropna col) in
  let n := length vals in
  match n with
  | O => None
  | _ =>
      if Nat.odd n then Some (nth (n / 2) vals 0%Q)
      else Some ((nth (n / 2 - 1) vals 0%Q + nth (n / 2) vals 0%Q) / 2)%Q
  end.

(** [round(2)]: to the nearest hundredth, a half going to the even side. *)
Definition rint (q : Q) : Z :=
  let f := Qfloor q in
  match Qcompare (q - inject_Z f) (1 # 2) with
  | Lt => f
  | Gt => f + 1
  | Eq => if Z.even f then f else f + 1
  end.

Definition round2 (x : float) : float :=
  match x with
  | Some q => Some (inject_Z (rint (q * 100)) / 100)%Q
  | None => None
  end.

Module Summary.
Record t := mk { year : Z; tna_mean : float; tna_median : float;
                 yret_mean : float; yret_median : float }.
End Summary.

(** [df_combo.groupby("year")[["crsp_tna", "yret"]].agg(["mean", "median"])
      .reset_index().round(2)] *)
Definition summary (df : list ComboE.t) : list Summary.t :=
  map (fun g =>
      let tna := map (fun r => Some (Combo.crsp_tna (ComboE.base r))) (snd g) in
      let yret := map (fun r => Combo.yret (ComboE.base r)) (snd g) in
      Summary.mk (fst g)
        (round2 (mean_skipna tna)) (round2 (median_skipna tna))
        (round2 (mean_skipna yret)) (round2 (median_skipna yret)))
    (groupby (fun r => Combo.year (ComboE.base r)) df).

(** * Properties *)

(** ** The order on keys *)

#[export] Instance Z_OrdLaws : OrdLaws Z.
Proof.
  split; simpl.
  - intros x y. apply Z.compare_eq_iff.
  - intros x y. apply Z.compare_antisym.
  - intros x y z. rewrite !Z.compare_lt_iff. lia.
Qed.

#[export] Instance prod_OrdLaws {A B} `{OrdLaws A} `{OrdLaws B} : OrdLaws (A * B).
Proof.
  split; simpl.
  - intros [a b] [a' b']; simpl.
    destruct (cmp a a') eqn:E.
    + apply cmp_eq in E. subst a'. rewrite cmp_eq. split; congruence.
    + split; [discriminate|]. intros Heq. injection Heq as -> ->.
      assert (cmp a' a' = Eq) by (apply cmp_eq; reflexivity). congruence.
    + split; [discriminate|]. intros Heq. injection Heq as -> ->.
      assert (cmp a' a' = Eq) by (apply cmp_eq; reflexivity). congruence.
  - intros [a b] [a' b']; simpl.
    rewrite (cmp_antisym a a'). destruct (cmp a a'); simpl; auto using cmp_antisym.
  - intros [a b] [a' b'] [a'' b'']; simpl.
    destruct (cmp a a') eqn:E1; try discriminate.
    + apply cmp_eq in E1. subst a'.
      destruct (cmp a a''); try discriminate; auto.
      apply cmp_lt_trans.
    + intros _. destruct (cmp a' a'') eqn:E2; try discriminate.
      * apply cmp_eq in E2. subst a''. rewrite E1. reflexivity.
      * rewrite (cmp_lt_trans _ _ _ E1 E2). reflexivity.
Qed.

Lemma month_number_inj (m n : month_name) : month_number m = month_number n -> m = n.
Proof. destruct m, n; simpl; intros E; try reflexivity; discriminate E. Qed.

Lemma month_number_range (m : month_name) : 1 <= month_number m <= 12.
Proof. destruct m; simpl; lia. Qed.

Lemma date_key_inj (d e : date) : date_key d = date_key e -> d = e.
Proof.
  destruct d as [y m dd], e as [y' m' dd']. unfold date_key, dt_month; simpl.
  intros E. injection E as -> Hm ->. apply month_number_inj in Hm. congruence.
Qed.

#[export] Instance date_OrdLaws : OrdLaws date.
Proof.
  split.
  - intros d e. change (cmp d e) with (cmp (date_key d) (date_key e)).
    rewrite cmp_eq. split; [apply date_key_inj | congruence].
  - intros d e. apply (cmp_antisym (date_key d) (date_key e)).
  - intros d e f. apply (cmp_lt_trans (date_key d) (date_key e) (date_key f)).
Qed.

Section KeyFacts.
Context {K : Type} `{OrdLaws K}.

Lemma cmp_refl (x : K) : cmp x x = Eq.
Proof. apply cmp_eq. reflexivity. Qed.

Lemma eqb_key_true (x y : K) : eqb_key x y = true <-> x = y.
Proof.
  unfold eqb_key. rewrite <- cmp_eq. destruct (cmp x y); split; congruence.
Qed.

Lemma eqb_key_refl (x : K) : eqb_key x x = true.
Proof. apply eqb_key_true. reflexivity. Qed.

Lemma cmp_gt_lt (x y : K) : cmp x y = Gt <-> cmp y x = Lt.
Proof. rewrite (cmp_antisym x y). destruct (cmp x y); simpl; split; congruence. Qed.

Lemma leb_key_total (x y : K) : leb_key x y = false -> leb_key y x = true.
Proof.
  unfold leb_key. destruct (cmp x y) eqn:E; try discriminate.
  apply cmp_gt_lt in E. rewrite E. reflexivity.
Qed.

Lemma leb_key_trans (x y z : K) :
  leb_key x y = true -> leb_key y z = true -> leb_key x z = true.
Proof.
  unfold leb_key.
  destruct (cmp x y) eqn:E1; try discriminate; intros _.
  - apply cmp_eq in E1. subst y. auto.
  - destruct (cmp y z) eqn:E2; try discriminate; intros _.
    + apply cmp_eq in E2. subst z. rewrite E1. reflexivity.
    + rewrite (cmp_lt_trans _ _ _ E1 E2). reflexivity.
Qed.

Lemma lt_key_irrefl (x : K) : ~ lt_key x x.
Proof. unfold lt_key. rewrite cmp_refl. discriminate. Qed.

Lemma lt_key_trans (x y z : K) : lt_key x y -> lt_key y z -> lt_key x z.
Proof. apply cmp_lt_trans. Qed.
End KeyFacts.

(** ** [sort_values] and [groupby] *)

Section FrameFacts.
Context {A K : Type} `{OrdLaws K}.
Variable key : A -> K.

Lemma insert_row_perm (x : A) (l : list A) :
  Permutation (insert_row key x l) (x :: l).
Proof.
  induction l as [|h t IH]; simpl.
  - apply Permutation_refl.
  - destruct (leb_key (key x) (key h)).
    + apply Permutation_refl.
    + eapply Permutation_trans; [apply perm_skip, IH | apply perm_swap].
Qed.

Lemma sort_values_perm (l : list A) : Permutation (sort_values key l) l.
Proof.
  induction l as [|x l IH]; simpl.
  - apply perm_nil.
  - eapply Permutation_trans; [apply insert_row_perm | apply perm_skip, IH].
Qed.

Lemma sort_values_In (l : list A) (x : A) : In x (sort_values key l) <-> In x l.
Proof.
  split; apply Permutation_in;
    [apply sort_values_perm | apply Permutation_sym, sort_values_perm].
Qed.

Lemma insert_row_sorted (x : A) (l : list A) :
  StronglySorted (le_row key) l -> StronglySorted (le_row key) (insert_row key x l).
Proof.
  induction 1 as [|h t Hs IH Hh]; simpl.
  - constructor; constructor.
  - destruct (leb_key (key x) (key h)) eqn:E.
    + constructor; [constructor; assumption|].
      constructor; [exact E|].
      eapply Forall_impl; [|exact Hh].
      intros a Ha. unfold le_row in *. eapply leb_key_trans; eassumption.
    + constructor; [exact IH|].
      apply leb_key_total in E.
      eapply Permutation_Forall; [apply Permutation_sym, insert_row_perm|].
      constructor; assumption.
Qed.

Lemma sort_values_sorted (l : list A) : StronglySorted (le_row key) (sort_values key l).
Proof.
  induction l; simpl; [constructor | apply insert_row_sorted; assumption].
Qed.

Lemma insert_row_least (x : A) (l : list A) :
  Forall (le_row key x) l -> insert_row key x l = x :: l.
Proof.
  destruct 1 as [|h t Hh _]; simpl; [reflexivity|].
  unfold le_row in Hh. rewrite Hh. reflexivity.
Qed.

(** A stable sort commutes with dropping rows. *)
Lemma filter_insert_row (p : A -> bool) (x : A) (l : list A) :
  StronglySorted (le_row key) l ->
  filter p (insert_row key x l)
  = if p x then insert_row key x (filter p l) else filter p l.
Proof.
  induction 1 as [|h t Hs IH Hh]; simpl.
  - destruct (p x); reflexivity.
  - destruct (leb_key (key x) (key h)) eqn:E; simpl.
    + destruct (p x) eqn:Px; [|reflexivity].
      destruct (p h) eqn:Ph; simpl.
      * rewrite E. reflexivity.
      * symmetry. apply insert_row_least.
        apply Forall_forall. intros a Ha. apply filter_In in Ha.
        destruct Ha as [Ha _]. rewrite Forall_forall in Hh.
        unfold le_row in *. eapply leb_key_trans; [exact E | apply Hh, Ha].
    + rewrite IH. destruct (p h) eqn:Ph; simpl.
      * destruct (p x); [rewrite E|]; reflexivity.
      * reflexivity.
Qed.

Lemma filter_sort_values (p : A -> bool) (l : list A) :
  filter p (sort_values key l) = sort_values key (filter p l).
Proof.
  induction l as [|x l IH]; simpl; [reflexivity|].
  rewrite filter_insert_row by apply sort_values_sorted.
  rewrite IH. destruct (p x); reflexivity.
Qed.

(** The group labels are the keys that occur, each once, in increasing order. *)
Lemma insert_key_In (k x : K) (l : list K) :
  In k (insert_key x l) <-> k = x \/ In k l.
Proof.
  induction l as [|h t IH]; simpl.
  - intuition.
  - destruct (cmp x h) eqn:E; simpl.
    + apply cmp_eq in E. subst h. intuition.
    + intuition.
    + rewrite IH. intuition.
Qed.

Lemma insert_key_sorted (x : K) (l : list K) :
  StronglySorted lt_key l -> StronglySorted lt_key (insert_key x l).
Proof.
  induction 1 as [|h t Hs IH Hh]; simpl.
  - constructor; constructor.
  - destruct (cmp x h) eqn:E.
    + constructor; assumption.
    + constructor; [constructor; assumption|].
      constructor; [exact E|].
      eapply Forall_impl; [|exact Hh].
      intros a Ha. eapply lt_key_trans; eassumption.
    + constructor; [exact IH|].
      apply Forall_forall. intros a Ha. apply insert_key_In in Ha.
      destruct Ha as [->|Ha].
      * apply cmp_gt_lt. exact E.
      * rewrite Forall_forall in Hh. auto.
Qed.

Lemma group_keys_In (l : list A) (k : K) :
  In k (group_keys key l) <-> exists r, In r l /\ key r = k.
Proof.
  unfold group_keys. induction l as [|x l IH]; simpl.
  - split; [tauto | intros (r & [] & _)].
  - rewrite insert_key_In, IH. split.
    + intros [->|(r & Hr & E)]; [exists x | exists r]; auto.
    + intros (r & [->|Hr] & E); [left | right; exists r]; auto.
Qed.

Lemma group_keys_sorted (l : list A) : StronglySorted lt_key (group_keys key l).
Proof.
  unfold group_keys. induction (map key l); simpl;
    [constructor | apply insert_key_sorted; assumption].
Qed.

Lemma group_In (k : K) (l : list A) (r : A) :
  In r (group key k l) <-> In r l /\ key r = k.
Proof. unfold group. rewrite filter_In, eqb_key_true. tauto. Qed.

Lemma group_nonempty (k : K) (l : list A) :
  In k (group_keys key l) -> group key k l <> [].
Proof.
  intros Hk. apply group_keys_In in Hk. destruct Hk as (r & Hr & E).
  assert (In r (group key k l)) by (apply group_In; auto).
  destruct (group key k l); [contradiction | discriminate].
Qed.
End FrameFacts.

Lemma strictly_sorted_NoDup {K} `{OrdLaws K} (l : list K) :
  StronglySorted lt_key l -> NoDup l.
Proof.
  induction 1 as [|h t Hs IH Hh]; constructor; auto.
  intros Hin. rewrite Forall_forall in Hh. apply (lt_key_irrefl h). auto.
Qed.

(** ** Sums and products of rationals *)

Lemma Qprod_app (l1 l2 : list Q) : Qprod (l1 ++ l2) == Qprod l1 * Qprod l2.
Proof.
  induction l1 as [|x l1 IH]; simpl.
  - ring.
  - fold (Qprod (l1 ++ l2)). fold (Qprod l1). rewrite IH. ring.
Qed.

Lemma Qprod_perm (l1 l2 : list Q) : Permutation l1 l2 -> Qprod l1 == Qprod l2.
Proof.
  induction 1 as [|x l l' _ IH|x y l|l l' l'' _ IH1 _ IH2]; simpl.
  - reflexivity.
  - fold (Qprod l). fold (Qprod l'). rewrite IH. reflexivity.
  - ring.
  - rewrite IH1. exact IH2.
Qed.

Lemma filter_perm {A} (p : A -> bool) (l1 l2 : list A) :
  Permutation l1 l2 -> Permutation (filter p l1) (filter p l2).
Proof.
  induction 1 as [|x l l' _ IH|x y l|l l' l'' _ IH1 _ IH2]; simpl.
  - constructor.
  - destruct (p x); [constructor|]; assumption.
  - destruct (p x), (p y); try apply Permutation_refl. apply perm_swap.
  - eapply Permutation_trans; eassumption.
Qed.

Lemma sorted_app_inv {A} (R : A -> A -> Prop) (l1 l2 : list A) (x : A) :
  StronglySorted R (l1 ++ x :: l2) -> Forall (R x) l2.
Proof.
  induction l1 as [|h t IH]; simpl; intros Hs; inversion Hs; subst; auto.
Qed.

(** ** The cumulative product of a group *)

Lemma running_cons (k k' : Z * Z) (p : Q) (acc : list (Z * Z * Q)) :
  running k ((k', p) :: acc) = if eqb_key k k' then p else running k acc.
Proof. reflexivity. Qed.

Lemma group_cumprod_labels (l : list (nat * RetMonth.t)) (acc : list (Z * Z * Q)) :
  map fst (group_cumprod acc l) = map fst l.
Proof.
  revert acc. induction l as [|[i r] l IH]; intros acc; simpl; [reflexivity|].
  rewrite IH. reflexivity.
Qed.

(** The value stored under the label of a row is the product of [mult]
    over the rows of its group up to and including that row. *)
Lemma group_cumprod_loc (pre post : list (nat * RetMonth.t)) (i : nat) (r : RetMonth.t)
    (acc : list (Z * Z * Q)) :
  ~ In i (map fst pre) ->
  exists v, loc i (group_cumprod acc (pre ++ (i, r) :: post)) = Some v /\
    v == running (RetMonth.fund_year r) acc
         * Qprod (map RetMonth.mult
                    (filter (fun x => eqb_key (RetMonth.fund_year r) (RetMonth.fund_year x))
                       (map snd pre)))
         * RetMonth.mult r.
Proof.
  revert acc. induction pre as [|[j r'] pre IH]; intros acc Hi.
  - simpl. rewrite Nat.eqb_refl. eexists; split; [reflexivity|]. ring.
  - simpl in Hi. simpl app. simpl group_cumprod. simpl loc.
    destruct (Nat.eqb i j) eqn:Eij.
    + apply Nat.eqb_eq in Eij. subst j. tauto.
    + destruct (IH ((RetMonth.fund_year r',
                      (running (RetMonth.fund_year r') acc * RetMonth.mult r')%Q) :: acc))
        as (v & Hv & Ev); [tauto|].
      exists v. split; [exact Hv|]. rewrite Ev, running_cons. simpl map. simpl filter.
      destruct (eqb_key (RetMonth.fund_year r) (RetMonth.fund_year r')) eqn:Ek.
      * apply eqb_key_true in Ek. rewrite <- Ek. simpl.
        fold (Qprod (map RetMonth.mult
          (filter (fun x => eqb_key (RetMonth.fund_year r) (RetMonth.fund_year x))
             (map snd pre)))). ring.
      * reflexivity.
Qed.

(** ** Monthly means and yearly returns *)

Lemma reset_index_snd {A} (l : list A) : map snd (reset_index l) = l.
Proof.
  unfold reset_index. generalize 0%nat. induction l as [|x l IH]; intros n; simpl;
    [reflexivity | rewrite IH; reflexivity].
Qed.

Lemma reset_index_fst {A} (l : list A) : map fst (reset_index l) = seq 0 (length l).
Proof.
  unfold reset_index. generalize 0%nat. induction l as [|x l IH]; intros n; simpl;
    [reflexivity | rewrite IH; reflexivity].
Qed.

Lemma filter_none {A} (p : A -> bool) (l : list A) :
  (forall x, In x l -> p x = false) -> filter p l = [].
Proof.
  induction l as [|x l IH]; simpl; intros Hl; [reflexivity|].
  rewrite (Hl x) by auto. auto.
Qed.

Lemma monthly_mean_unfold (D : list FundMonth.t) :
  monthly_mean D
  = map (fun k => RetMonth.mk (fst k) (fst (snd k)) (snd (snd k))
                    (mean (map FundMonth.mret (group FundMonth.key k D))))
      (group_keys FundMonth.key D).
Proof. unfold monthly_mean, groupby. rewrite map_map. reflexivity. Qed.

Lemma monthly_mean_keys (D : list FundMonth.t) :
  map RetMonth.key (monthly_mean D) = group_keys FundMonth.key D.
Proof.
  rewrite monthly_mean_unfold, map_map. rewrite <- (map_id (group_keys _ D)) at 2.
  apply map_ext. intros [w [y m]]. reflexivity.
Qed.

Lemma monthly_mean_In (D : list FundMonth.t) (r : RetMonth.t) :
  In r (monthly_mean D) ->
  In (RetMonth.key r) (group_keys FundMonth.key D) /\
  RetMonth.mret r
  = mean (month_returns D (RetMonth.wficn r) (RetMonth.year r) (RetMonth.month r)).
Proof.
  rewrite monthly_mean_unfold, in_map_iff. intros ([w [y m]] & <- & Hk).
  split; [exact Hk | reflexivity].
Qed.

Lemma months_of_In (D : list FundMonth.t) (w y m : Z) :
  In m (months_of D w y) <-> exists x, In x D /\ FundMonth.key x = (w, (y, m)).
Proof.
  unfold months_of. rewrite in_map_iff. split.
  - intros ([w' [y' m']] & Hm & Hk). simpl in Hm. subst m'.
    apply filter_In in Hk. destruct Hk as [Hk E]. simpl in E.
    apply eqb_key_true in E. injection E as -> ->.
    apply group_keys_In in Hk. exact Hk.
  - intros Hx. exists (w, (y, m)). split; [reflexivity|].
    apply filter_In. split; [apply group_keys_In; exact Hx|].
    simpl. apply eqb_key_refl.
Qed.

Lemma months_of_sorted (D : list FundMonth.t) (w y : Z) :
  StronglySorted Z.lt (months_of D w y).
Proof.
  unfold months_of.
  pose proof (group_keys_sorted FundMonth.key D) as Hs.
  induction Hs as [|k ks Hs IH Hk]; simpl; [constructor|].
  destruct (eqb_key (w, y) (fst k, fst (snd k))) eqn:E; [|exact IH].
  simpl. constructor; [exact IH|].
  apply Forall_forall. intros m Hm. apply in_map_iff in Hm.
  destruct Hm as (k' & <- & Hk'). apply filter_In in Hk'. destruct Hk' as [Hin E'].
  rewrite Forall_forall in Hk. specialize (Hk k' Hin).
  apply eqb_key_true in E, E'. destruct k as [a [b c]], k' as [a' [b' c']].
  simpl in *. injection E as <- <-. injection E' as <- <-.
  unfold lt_key in Hk. simpl in Hk. rewrite !Z.compare_refl in Hk.
  apply Z.compare_lt_iff. exact Hk.
Qed.

(** The rows of [monthly_mean] of one fund and year are the months the
    fund has in that year, each with the mean return of the month. *)
Lemma monthly_mean_fund_year (D : list FundMonth.t) (w y : Z) :
  map RetMonth.mult
    (filter (fun x => eqb_key (w, y) (RetMonth.fund_year x)) (monthly_mean D))
  = map (fun m => 1 + mean (month_returns D w y m))%Q (months_of D w y).
Proof.
  rewrite monthly_mean_unfold, filter_map_swap. unfold months_of.
  rewrite !map_map. apply map_ext_in.
  intros [w' [y' m']] Hk. apply filter_In in Hk. destruct Hk as [_ E].
  simpl in E. apply eqb_key_true in E. injection E as <- <-. reflexivity.
Qed.

Lemma leb_year_month (y m m' : Z) : leb_key (y, m) (y, m') = true -> m <= m'.
Proof.
  unfold leb_key. simpl. rewrite Z.compare_refl.
  destruct (m ?= m') eqn:E; try discriminate; intros _.
  - apply Z.compare_eq in E. lia.
  - apply Z.lt_le_incl. exact E.
Qed.

(** The cumulative product that December gets is the product over every
    month of the year, since no month comes after December. *)
Lemma cumret_december (D : list FundMonth.t) (i : nat) (r : RetMonth.t) :
  (forall x, In x D -> FundMonth.month x <= 12) ->
  In (i, r) (reset_index (monthly_mean D)) ->
  RetMonth.month r = 12 ->
  exists q, loc i (cumret (reset_index (monthly_mean D))) = Some q /\
            q == compounded D (RetMonth.wficn r) (RetMonth.year r).
Proof.
  intros Hm Hin Hdec. unfold cumret.
  set (IM := reset_index (monthly_mean D)) in *.
  set (S := sort_values (fun ir => RetMonth.year_month (snd ir)) IM).
  assert (HP : Permutation S IM) by apply sort_values_perm.
  assert (HS : In (i, r) S) by (apply sort_values_In; exact Hin).
  destruct (in_split _ _ HS) as (pre & post & ES).
  assert (Hlab : NoDup (map fst S)).
  { eapply Permutation_NoDup; [apply Permutation_map, Permutation_sym, HP|].
    unfold IM. rewrite reset_index_fst. apply seq_NoDup. }
  assert (Hkeys : NoDup (map (fun ir => RetMonth.key (snd ir)) S)).
  { eapply Permutation_NoDup; [apply Permutation_map, Permutation_sym, HP|].
    rewrite <- (map_map snd RetMonth.key). unfold IM.
    rewrite reset_index_snd, monthly_mean_keys.
    apply strictly_sorted_NoDup, group_keys_sorted. }
  assert (Hmon : forall j x, In (j, x) S -> RetMonth.month x <= 12).
  { intros j x Hx. apply (Permutation_in _ HP) in Hx.
    assert (Hx' : In x (monthly_mean D)).
    { rewrite <- (reset_index_snd (monthly_mean D)). apply in_map_iff.
      exists (j, x). auto. }
    apply monthly_mean_In in Hx'. destruct Hx' as [Hk _].
    apply group_keys_In in Hk. destruct Hk as (z & Hz & Ez).
    specialize (Hm z Hz). unfold FundMonth.key, RetMonth.key in Ez.
    injection Ez as _ _ Ez. rewrite <- Ez. exact Hm. }
  assert (Hsorted : Forall (le_row (fun ir => RetMonth.year_month (snd ir)) (i, r)) post).
  { apply (sorted_app_inv _ pre). rewrite <- ES. apply sort_values_sorted. }
  rewrite ES in Hlab, Hkeys. rewrite map_app in Hlab, Hkeys. simpl in Hlab, Hkeys.
  apply NoDup_remove_2 in Hlab, Hkeys.
  destruct (group_cumprod_loc pre post i r []) as (v & Hv & Ev).
  { intros Hi. apply Hlab, in_or_app. left. exact Hi. }
  rewrite ES. exists v. split; [exact Hv|]. rewrite Ev. simpl running.
  unfold compounded. rewrite <- monthly_mean_fund_year.
  transitivity (Qprod (map RetMonth.mult
    (filter (fun x => eqb_key (RetMonth.wficn r, RetMonth.year r) (RetMonth.fund_year x))
       (map snd S)))).
  2:{ apply Qprod_perm, Permutation_map, filter_perm.
      rewrite <- (reset_index_snd (monthly_mean D)). apply Permutation_map, HP. }
  rewrite ES, map_app. simpl map. rewrite filter_app. simpl filter.
  change (RetMonth.wficn r, RetMonth.year r) with (RetMonth.fund_year r).
  rewrite eqb_key_refl.
  rewrite (filter_none _ (map snd post)).
  - rewrite map_app, Qprod_app. simpl. ring.
  - intros x Hx. apply in_map_iff in Hx. destruct Hx as ([j x'] & <- & Hx). simpl.
    destruct (eqb_key (RetMonth.fund_year r) (RetMonth.fund_year x')) eqn:E;
      [exfalso | reflexivity].
    apply eqb_key_true in E. unfold RetMonth.fund_year in E. injection E as Ew Ey.
    rewrite Forall_forall in Hsorted. specialize (Hsorted _ Hx).
    unfold le_row, RetMonth.year_month in Hsorted. simpl in Hsorted.
    rewrite <- Ey in Hsorted. apply leb_year_month in Hsorted.
    assert (RetMonth.month x' <= 12).
    { apply (Hmon j). rewrite ES. apply in_or_app. right. right. exact Hx. }
    apply Hkeys, in_or_app. right. apply in_map_iff. exists (j, x').
    split; [|exact Hx]. unfold RetMonth.key. simpl. f_equal; [auto|]. f_equal; [auto|]. lia.
Qed.

Lemma clean_crsp_month (crsp : list Crsp.t) (mf : list Mflink1.t) (x : FundMonth.t) :
  In x (clean_crsp crsp mf) -> 1 <= FundMonth.month x <= 12.
Proof.
  unfold clean_crsp, df_crsp_linked. rewrite in_map_iff.
  intros (l & <- & Hl). apply in_flat_map in Hl. destruct Hl as ([c w] & _ & Hl).
  simpl in Hl. destruct w as [w|]; [|contradiction].
  destruct Hl as [<-|[]]. simpl. apply month_number_range.
Qed.

Lemma reset_index_In {A} (l : list A) (x : A) :
  In x l <-> exists i, In (i, x) (reset_index l).
Proof.
  rewrite <- (reset_index_snd l) at 1. rewrite in_map_iff. split.
  - intros ([i y] & E & Hy). simpl in E. subst y. exists i. exact Hy.
  - intros (i & Hi). exists (i, x). auto.
Qed.

Lemma df_ret_In (D : list FundMonth.t) (r : Ret.t) :
  (forall x, In x D -> FundMonth.month x <= 12) ->
  In r (df_ret D) ->
  Ret.month r = 12 /\
  In 12 (months_of D (Ret.wficn r) (Ret.year r)) /\
  Ret.yret r = fsub (Ret.cumret r) (Some 1%Q) /\
  exists q, Ret.cumret r = Some q /\
            q == compounded D (Ret.wficn r) (Ret.year r).
Proof.
  intros Hm. unfold df_ret. rewrite in_map_iff.
  intros ([i rm] & <- & Hf). apply filter_In in Hf. destruct Hf as [Hin Hdec].
  simpl in *. apply Z.eqb_eq in Hdec.
  split; [exact Hdec|]. split; [|split; [reflexivity|]].
  - assert (Hrm : In rm (monthly_mean D)) by (apply reset_index_In; eauto).
    apply monthly_mean_In in Hrm. destruct Hrm as [Hk _].
    apply months_of_In. apply group_keys_In in Hk. unfold RetMonth.key in Hk.
    rewrite Hdec in Hk. exact Hk.
  - apply cumret_december; assumption.
Qed.

(** A fund-year with a December row has a row in [df_ret]. *)
Lemma df_ret_exists (D : list FundMonth.t) (w y : Z) :
  In 12 (months_of D w y) ->
  exists r, In r (df_ret D) /\ Ret.wficn r = w /\ Ret.year r = y.
Proof.
  intros H12. apply months_of_In in H12. apply group_keys_In in H12.
  rewrite <- monthly_mean_keys in H12. apply in_map_iff in H12.
  destruct H12 as (rm & Ek & Hrm). apply reset_index_In in Hrm.
  destruct Hrm as (i & Hi). unfold RetMonth.key in Ek. injection Ek as Ew Ey Em.
  eexists. split.
  - unfold df_ret. apply in_map_iff. exists (i, rm). split; [reflexivity|].
    apply filter_In. split; [exact Hi|]. simpl. apply Z.eqb_eq. exact Em.
  - simpl. auto.
Qed.

Lemma NoDup_map_filter {A B} (label : A -> B) (keep : A -> bool) :
  forall rows, NoDup (map label rows) -> NoDup (map label (filter keep rows)).
Proof.
  intros rows. induction rows as [|x rows IH]; simpl; intros Hn; [constructor|].
  inversion Hn as [|? ? Hx Hl]; subst.
  destruct (keep x); simpl; auto.
  constructor; auto. rewrite in_map_iff in *. intros (z & E & Hz).
  apply Hx. exists z. split; [exact E|]. apply filter_In in Hz. tauto.
Qed.

Lemma NoDup_map_eq {A B} (f : A -> B) (l : list A) (a b : A) :
  NoDup (map f l) -> In a l -> In b l -> f a = f b -> a = b.
Proof.
  induction l as [|x l IH]; simpl; intros Hn Ha Hb E; [contradiction|].
  inversion Hn as [|? ? Hx Hl]; subst.
  destruct Ha as [->|Ha], Hb as [->|Hb]; auto.
  - exfalso. apply Hx. rewrite E. apply in_map. exact Hb.
  - exfalso. apply Hx. rewrite <- E. apply in_map. exact Ha.
Qed.

(** [df_ret] has at most one row for a fund and year. *)
Lemma df_ret_unique (D : list FundMonth.t) (r r' : Ret.t) :
  In r (df_ret D) -> In r' (df_ret D) ->
  Ret.wficn r = Ret.wficn r' -> Ret.year r = Ret.year r' -> r = r'.
Proof.
  unfold df_ret. rewrite !in_map_iff.
  intros ([i a] & <- & Ha) ([j b] & <- & Hb). simpl. intros Ew Ey.
  assert (Hn : NoDup (map (fun ir => RetMonth.key (snd ir))
            (filter (fun ir : nat * RetMonth.t => RetMonth.month (snd ir) =? 12)
               (reset_index (monthly_mean D))))).
  { apply NoDup_map_filter. rewrite <- (map_map snd RetMonth.key).
    rewrite reset_index_snd, monthly_mean_keys.
    apply strictly_sorted_NoDup, group_keys_sorted. }
  assert (E : (i, a) = (j, b)).
  { apply (NoDup_map_eq _ _ _ _ Hn Ha Hb). simpl.
    apply filter_In in Ha, Hb. destruct Ha as [_ Ha], Hb as [_ Hb]. simpl in *.
    apply Z.eqb_eq in Ha, Hb. unfold RetMonth.key. congruence. }
  injection E as -> ->. reflexivity.
Qed.

Lemma df_ret_compounds (D : list FundMonth.t) (r : Ret.t) :
  (forall x, In x D -> FundMonth.month x <= 12) ->
  In r (df_ret D) ->
  compounds_monthly_means D (Ret.wficn r) (Ret.year r) (Ret.yret r).
Proof.
  intros Hm Hr. destruct (df_ret_In D r Hm Hr) as (_ & _ & Ey & q & Ec & Eq).
  exists (months_of D (Ret.wficn r) (Ret.year r)), (q - 1)%Q.
  split; [apply months_of_sorted|]. split; [|split].
  - intros m. rewrite months_of_In. split.
    + intros (x & Hx & E). exists x. unfold FundMonth.key in E.
      injection E as E1 E2 E3. auto.
    + intros (x & Hx & E1 & E2 & E3). exists x. unfold FundMonth.key.
      split; [exact Hx | congruence].
  - rewrite Ey, Ec. reflexivity.
  - rewrite Eq. reflexivity.
Qed.

(** C1. For every fund and year, the annual return in the output ([yret] in
    [df_ret], carried unchanged into [df_crsp_clean]) is the product, over
    the months of that year present in the data taken in increasing order,
    of one plus the simple mean of the month's returns over the fund's
    share-class rows, minus one. *)
Theorem annual_return_compounds_monthly_means
    (df_crsp : list Crsp.t) (df_mflink1 : list Mflink1.t) :
  let D := clean_crsp df_crsp df_mflink1 in
  (forall r, In r (df_ret D) ->
     compounds_monthly_means D (Ret.wficn r) (Ret.year r) (Ret.yret r)) /\
  (forall c, In c (df_crsp_clean D) ->
     compounds_monthly_means D (CrspClean.wficn c) (CrspClean.year c) (CrspClean.yret c)).
Proof.
  intros D.
  assert (Hm : forall x, In x D -> FundMonth.month x <= 12).
  { intros x Hx. apply clean_crsp_month in Hx. lia. }
  split.
  - intros r Hr. apply df_ret_compounds; assumption.
  - intros c Hc. unfold df_crsp_clean in Hc. apply in_flat_map in Hc.
    destruct Hc as (a & _ & Hc). apply in_map_iff in Hc.
    destruct Hc as (b & <- & Hb). apply filter_In in Hb. destruct Hb as [Hb E].
    apply andb_true_iff in E. destruct E as [Ew Ey].
    apply Z.eqb_eq in Ew, Ey. simpl. rewrite <- Ew, <- Ey.
    apply df_ret_compounds; assumption.
Qed.

(** On the small universe, fund 7 has January, February and December
    in 2000 and its return is compounded over these three months. *)
Lemma annual_return_compounds_monthly_means_witness :
  let D := clean_crsp sample_crsp sample_mflink1 in
  months_of D 7 2000 = [1; 2; 12] /\
  exists r, In r (df_ret D) /\ Ret.wficn r = 7 /\ Ret.year r = 2000 /\
            compounds_monthly_means D 7 2000 (Ret.yret r).
Proof.
  intros D. split; [reflexivity|].
  assert (H : exists r, In r (df_ret D) /\ Ret.wficn r = 7 /\ Ret.year r = 2000).
  { vm_compute. eexists. split; [left; reflexivity | split; reflexivity]. }
  destruct H as (r & Hr & Ew & Ey). exists r. repeat split; auto.
  rewrite <- Ew, <- Ey.
  exact (proj1 (annual_return_compounds_monthly_means sample_crsp sample_mflink1) r Hr).
Defined.


(** The monthly mean returns 0.01, -0.02 and 0.03 compound to
    1.01 * 0.98 * 1.03 - 1. *)
Example annual_return_example :
  exists q,
    map Ret.yret
      (df_ret [FundMonth.mk 7 2000 1 (1 # 100) None;
               FundMonth.mk 7 2000 2 (-2 # 100) None;
               FundMonth.mk 7 2000 12 (3 # 100) None]) = [Some q] /\
    q == (101 # 100) * (98 # 100) * (103 # 100) - 1.
Proof. eexists. split; vm_compute; reflexivity. Qed.

(** C7. The rows of [df_ret] are December rows and their [yret] is the
    cumulative product reached in December, minus one.  A fund-year that
    has a December row gets exactly one row, whose cumulative product runs
    over the months the fund has in that year, however few they are; a
    fund-year without a December row gets none. *)
Theorem december_value_is_the_annual_figure
    (df_crsp : list Crsp.t) (df_mflink1 : list Mflink1.t) :
  let D := clean_crsp df_crsp df_mflink1 in
  (forall r, In r (df_ret D) ->
     Ret.month r = 12 /\ Ret.yret r = fsub (Ret.cumret r) (Some 1%Q)) /\
  (forall w y, In 12 (months_of D w y) ->
     exists r q,
       In r (df_ret D) /\ Ret.wficn r = w /\ Ret.year r = y /\
       Ret.cumret r = Some q /\ q == compounded D w y /\
       Ret.yret r = Some (q - 1)%Q /\
       forall r', In r' (df_ret D) -> Ret.wficn r' = w -> Ret.year r' = y -> r' = r) /\
  (forall w y, ~ In 12 (months_of D w y) ->
     forall r, In r (df_ret D) -> ~ (Ret.wficn r = w /\ Ret.year r = y)).
Proof.
  intros D.
  assert (Hm : forall x, In x D -> FundMonth.month x <= 12).
  { intros x Hx. apply clean_crsp_month in Hx. lia. }
  split; [|split].
  - intros r Hr. destruct (df_ret_In D r Hm Hr) as (H12 & _ & Ey & _). auto.
  - intros w y H12. destruct (df_ret_exists D w y H12) as (r & Hr & Ew & Ey).
    destruct (df_ret_In D r Hm Hr) as (_ & _ & Eyret & q & Ec & Eq).
    exists r, q. subst w y. repeat split; auto.
    + rewrite Eyret, Ec. reflexivity.
    + intros r' Hr' Ew Ey. apply (df_ret_unique D); auto.
  - intros w y H12 r Hr [Ew Ey]. apply H12.
    destruct (df_ret_In D r Hm Hr) as (_ & Hin & _). subst w y. exact Hin.
Qed.

(** A fund whose year 2001 has only November and December: the year still
    gets its row, compounded over those two months. *)
Lemma december_value_is_the_annual_figure_witness :
  let D := clean_crsp
             [Crsp.mk 1 (mkdate 2001 Nov 30) (Some (1 # 100)) None;
              Crsp.mk 1 (mkdate 2001 Dec 31) (Some (2 # 100)) None]
             [Mflink1.mk 1 (Some 7)] in
  months_of D 7 2001 = [11; 12] /\
  exists r q,
    In r (df_ret D) /\ Ret.wficn r = 7 /\ Ret.year r = 2001 /\
    Ret.cumret r = Some q /\ q == compounded D 7 2001 /\
    Ret.yret r = Some (q - 1)%Q /\
    forall r', In r' (df_ret D) -> Ret.wficn r' = 7 -> Ret.year r' = 2001 -> r' = r.
Proof.
  intros D. split; [reflexivity|].
  apply (proj1 (proj2 (december_value_is_the_annual_figure
    [Crsp.mk 1 (mkdate 2001 Nov 30) (Some (1 # 100)) None;
     Crsp.mk 1 (mkdate 2001 Dec 31) (Some (2 # 100)) None]
    [Mflink1.mk 1 (Some 7)])) 7 2001).
  vm_compute. auto.
Defined.

(** ** Year-end TNA *)

Lemma filter_filter_and {A} (p q : A -> bool) (l : list A) :
  filter p (filter q l) = filter (fun x => q x && p x) l.
Proof.
  induction l as [|x l IH]; simpl; [reflexivity|].
  destruct (q x); simpl; [destruct (p x)|]; rewrite IH; reflexivity.
Qed.

Lemma eqb_key_pair (a b w y : Z) : eqb_key (a, b) (w, y) = (a =? w) && (b =? y).
Proof.
  destruct (eqb_key (a, b) (w, y)) eqn:E.
  - apply eqb_key_true in E. injection E as -> ->. rewrite !Z.eqb_refl. reflexivity.
  - destruct ((a =? w) && (b =? y)) eqn:E2; [|reflexivity].
    apply andb_true_iff in E2. destruct E2 as [E1 E2]. apply Z.eqb_eq in E1, E2.
    subst. rewrite eqb_key_refl in E. discriminate.
Qed.

Lemma december_group (D : list FundMonth.t) (w y : Z) :
  map FundMonth.mtna
    (group FundMonth.fund_year (w, y) (filter (fun r => FundMonth.month r =? 12) D))
  = december_tna D w y.
Proof.
  unfold group, december_tna. rewrite filter_filter_and. f_equal.
  apply filter_ext. intros x. unfold FundMonth.fund_year. rewrite eqb_key_pair.
  destruct (FundMonth.month x =? 12), (FundMonth.wficn x =? w),
    (FundMonth.year x =? y); reflexivity.
Qed.

Lemma df_tna_In (D : list FundMonth.t) (t : Tna.t) :
  In t (df_tna D) ->
  december_tna D (Tna.wficn t) (Tna.year t) <> [] /\
  Tna.crsp_tna t = sum_skipna (december_tna D (Tna.wficn t) (Tna.year t)).
Proof.
  unfold df_tna, groupby. rewrite map_map, in_map_iff.
  intros ([w y] & <- & Hk). simpl. rewrite december_group. split; [|reflexivity].
  rewrite <- december_group. intros E. apply map_eq_nil in E.
  exact (group_nonempty _ _ _ Hk E).
Qed.

Lemma december_tna_months (D : list FundMonth.t) (w y : Z) :
  december_tna D w y <> [] <-> In 12 (months_of D w y).
Proof.
  rewrite months_of_In. unfold december_tna. split.
  - intros Hne.
    destruct (filter (fun x => (FundMonth.wficn x =? w) && (FundMonth.year x =? y)
                               && (FundMonth.month x =? 12)) D) as [|x l] eqn:E;
      [contradiction|].
    assert (Hx : In x (x :: l)) by (left; reflexivity).
    rewrite <- E in Hx. apply filter_In in Hx. destruct Hx as [Hx Hp].
    rewrite !andb_true_iff, !Z.eqb_eq in Hp. exists x. split; [exact Hx|].
    unfold FundMonth.key. destruct Hp as [[-> ->] ->]. reflexivity.
  - intros (x & Hx & E) Hnil. apply map_eq_nil in Hnil.
    assert (Hin : In x (filter (fun x => (FundMonth.wficn x =? w)
                     && (FundMonth.year x =? y) && (FundMonth.month x =? 12)) D)).
    { apply filter_In. split; [exact Hx|]. unfold FundMonth.key in E.
      injection E as -> -> ->. rewrite !Z.eqb_refl. reflexivity. }
    rewrite Hnil in Hin. contradiction.
Qed.

Lemma df_tna_exists (D : list FundMonth.t) (w y : Z) :
  december_tna D w y <> [] ->
  exists t, In t (df_tna D) /\ Tna.wficn t = w /\ Tna.year t = y.
Proof.
  intros Hne. rewrite <- december_group in Hne.
  exists (Tna.mk w y (sum_skipna (map FundMonth.mtna
    (group FundMonth.fund_year (w, y) (filter (fun r => FundMonth.month r =? 12) D))))).
  split; [|auto]. unfold df_tna, groupby. rewrite map_map. apply in_map_iff.
  exists (w, y). split; [reflexivity|]. apply group_keys_In.
  destruct (group FundMonth.fund_year (w, y)
              (filter (fun r => FundMonth.month r =? 12) D)) as [|x l] eqn:E;
    [contradiction Hne; reflexivity|].
  assert (Hx : In x (x :: l)) by (left; reflexivity).
  rewrite <- E in Hx. apply group_In in Hx. exists x. exact Hx.
Qed.

Lemma df_crsp_clean_In (D : list FundMonth.t) (c : CrspClean.t) :
  In c (df_crsp_clean D) <->
  exists t r, In t (df_tna D) /\ In r (df_ret D) /\
    Ret.wficn r = Tna.wficn t /\ Ret.year r = Tna.year t /\
    c = CrspClean.mk (Tna.wficn t) (Tna.year t) (Tna.crsp_tna t) (Ret.yret r).
Proof.
  unfold df_crsp_clean. rewrite in_flat_map. split.
  - intros (t & Ht & Hc). apply in_map_iff in Hc. destruct Hc as (r & <- & Hr).
    apply filter_In in Hr. destruct Hr as [Hr E].
    rewrite andb_true_iff, !Z.eqb_eq in E. exists t, r. tauto.
  - intros (t & r & Ht & Hr & Ew & Ey & ->). exists t. split; [exact Ht|].
    apply in_map_iff. exists r. split; [reflexivity|]. apply filter_In.
    split; [exact Hr|]. rewrite andb_true_iff, !Z.eqb_eq. auto.
Qed.

(** C4. The year-end TNA of a fund and year, in [df_tna] and in
    [df_crsp_clean], is the sum of the December [mtna] values of the
    fund's share-class rows (missing values are skipped by the sum); a
    fund-year has a record exactly when it has December rows, so a year
    without December data is absent. *)
Theorem year_end_tna_is_december_sum (D : list FundMonth.t) :
  (forall t, In t (df_tna D) ->
     Tna.crsp_tna t = sum_skipna (december_tna D (Tna.wficn t) (Tna.year t))) /\
  (forall c, In c (df_crsp_clean D) ->
     CrspClean.crsp_tna c
     = sum_skipna (december_tna D (CrspClean.wficn c) (CrspClean.year c))) /\
  (forall w y,
     ((exists t, In t (df_tna D) /\ Tna.wficn t = w /\ Tna.year t = y)
      <-> december_tna D w y <> []) /\
     ((exists c, In c (df_crsp_clean D) /\ CrspClean.wficn c = w /\ CrspClean.year c = y)
      <-> december_tna D w y <> [])).
Proof.
  split; [|split].
  - intros t Ht. apply df_tna_In. exact Ht.
  - intros c Hc. apply df_crsp_clean_In in Hc.
    destruct Hc as (t & r & Ht & _ & _ & _ & ->). simpl. apply df_tna_In. exact Ht.
  - intros w y. split; split.
    + intros (t & Ht & <- & <-). apply df_tna_In. exact Ht.
    + apply df_tna_exists.
    + intros (c & Hc & <- & <-). apply df_crsp_clean_In in Hc.
      destruct Hc as (t & r & Ht & _ & _ & _ & ->). simpl. apply df_tna_In. exact Ht.
    + intros Hne. destruct (df_tna_exists D w y Hne) as (t & Ht & Ew & Ey).
      apply december_tna_months in Hne.
      destruct (df_ret_exists D w y Hne) as (r & Hr & Ew' & Ey').
      exists (CrspClean.mk (Tna.wficn t) (Tna.year t) (Tna.crsp_tna t) (Ret.yret r)).
      split; [|auto]. apply df_crsp_clean_In. exists t, r.
      repeat split; auto; congruence.
Qed.

(** On the small universe, the December TNA 100 and 50 of the two share
    classes of fund 7 give 150. *)
Lemma year_end_tna_is_december_sum_witness :
  let D := clean_crsp sample_crsp sample_mflink1 in
  december_tna D 7 2000 = [Some 100%Q; Some 50%Q] /\
  In (Tna.mk 7 2000 (150 # 1)) (df_tna D) /\
  Tna.crsp_tna (Tna.mk 7 2000 (150 # 1)) = sum_skipna (december_tna D 7 2000).
Proof.
  intros D. split; [reflexivity|]. split; [vm_compute; auto|].
  apply (proj1 (year_end_tna_is_december_sum D)). vm_compute. auto.
Defined.


(** Two share classes with December TNA 100 and 50 give a year-end TNA of
    150; the fund's year without a December row gives no record. *)
Example year_end_tna_example :
  df_tna [FundMonth.mk 7 2000 12 0 (Some 100%Q);
          FundMonth.mk 7 2000 12 0 (Some 50%Q);
          FundMonth.mk 7 2001 11 0 (Some 70%Q)]
  = [Tna.mk 7 2000 (150 # 1)].
Proof. vm_compute. reflexivity. Qed.

(** ** Missing returns *)

Lemma Qsum_fillna (l : list float) : Qsum (map (fillna 0) l) == sum_skipna l.
Proof.
  induction l as [|[q|] l IH]; simpl.
  - reflexivity.
  - fold (Qsum (map (fillna 0) l)). rewrite IH. reflexivity.
  - fold (Qsum (map (fillna 0) l)). rewrite IH. ring.
Qed.

Lemma month_returns_linked (L : list Linked.t) (w y m : Z) :
  month_returns (map fill_mret L) w y m
  = map (fillna 0) (map Linked.mret (group Linked.key (w, (y, m)) L)).
Proof.
  unfold month_returns, group. rewrite filter_map_swap, !map_map. reflexivity.
Qed.

(** C9. [mret] is filled with 0 before the monthly mean is taken: the
    mean of a fund's month is the sum of the returns that are present
    divided by the number of all the fund's share-class rows of that
    month, those with a missing return included. *)
Theorem missing_return_counts_as_zero
    (df_crsp : list Crsp.t) (df_mflink1 : list Mflink1.t) (r : RetMonth.t) :
  In r (monthly_mean (clean_crsp df_crsp df_mflink1)) ->
  let rows := group Linked.key (RetMonth.key r) (df_crsp_linked df_crsp df_mflink1) in
  rows <> [] /\
  RetMonth.mret r == Qsum (map (fun x => fillna 0 (Linked.mret x)) rows)
                     / inject_Z (Z.of_nat (length rows)) /\
  RetMonth.mret r == sum_skipna (map Linked.mret rows)
                     / inject_Z (Z.of_nat (length rows)).
Proof.
  intros Hr rows. apply monthly_mean_In in Hr. destruct Hr as [Hk Er].
  unfold clean_crsp in Er. rewrite month_returns_linked in Er.
  fold (RetMonth.key r) in Er. fold rows in Er.
  assert (Hrows : rows <> []).
  { apply group_keys_In in Hk. destruct Hk as (x & Hx & Ex).
    unfold clean_crsp in Hx. apply in_map_iff in Hx. destruct Hx as (l & <- & Hl).
    assert (Hin : In l rows) by (apply group_In; auto).
    intros E. rewrite E in Hin. contradiction. }
  split; [exact Hrows|].
  assert (E : RetMonth.mret r == Qsum (map (fillna 0) (map Linked.mret rows))
                                 / inject_Z (Z.of_nat (length rows))).
  { rewrite Er. unfold mean. rewrite !length_map. reflexivity. }
  split.
  - rewrite E, map_map. reflexivity.
  - rewrite E, Qsum_fillna. reflexivity.
Qed.

(** Two share classes of one fund, one of them without a return in
    January: the month's mean is 0.04 / 2, not 0.04. *)
Lemma missing_return_counts_as_zero_witness :
  let df_crsp := [Crsp.mk 1 (mkdate 2000 Jan 31) (Some (4 # 100)) None;
                  Crsp.mk 2 (mkdate 2000 Jan 31) None None] in
  let df_mflink1 := [Mflink1.mk 1 (Some 7); Mflink1.mk 2 (Some 7)] in
  let r := RetMonth.mk 7 2000 1 (mean [4 # 100; 0%Q]) in
  let rows := group Linked.key (RetMonth.key r) (df_crsp_linked df_crsp df_mflink1) in
  length rows = 2%nat /\
  RetMonth.mret r == sum_skipna (map Linked.mret rows) / inject_Z (Z.of_nat (length rows)) /\
  RetMonth.mret r == 2 # 100.
Proof.
  intros df_crsp df_mflink1 r rows. split; [reflexivity|]. split.
  - apply (missing_return_counts_as_zero df_crsp df_mflink1 r).
    vm_compute. auto.
  - vm_compute. reflexivity.
Defined.

(** ** Holdings: zero [assets] are missing *)

Lemma zero_to_nan_nonzero (a : Q) : nonzero_or_missing (zero_to_nan a).
Proof.
  unfold zero_to_nan. destruct (Qeq_bool a 0) eqn:E; simpl; [exact I|].
  apply Qeq_bool_neq. exact E.
Qed.

Lemma last_valid_In {A} (l : list (option A)) (v : A) :
  last_valid l = Some v -> In (Some v) l.
Proof.
  induction l as [|x l IH]; simpl; [discriminate|].
  destruct (last_valid l) as [u|].
  - intros E. right. apply IH. exact E.
  - intros ->. left. reflexivity.
Qed.

Lemma df_reports_assets (h : list Holding.t) (r : Report.t) :
  In r (df_reports h) -> nonzero_or_missing (Report.assets r).
Proof.
  unfold df_reports. rewrite in_map_iff. intros (g & <- & _). simpl.
  apply zero_to_nan_nonzero.
Qed.

Lemma df_eq_assets (reports : list Report.t) (e : Equity.t) :
  (forall r, In r reports -> nonzero_or_missing (Report.assets r)) ->
  In e (df_eq reports) -> nonzero_or_missing (Equity.assets e).
Proof.
  intros Hr. unfold df_eq, groupby. rewrite map_map, in_map_iff.
  intros (k & <- & _). simpl.
  destruct (last_valid (map Report.assets (group _ k reports))) as [v|] eqn:E;
    [|exact I].
  apply last_valid_In in E. apply in_map_iff in E. destruct E as (r & Er & Hin).
  apply filter_In in Hin. destruct Hin as [Hin _].
  specialize (Hr r Hin). rewrite Er in Hr. exact Hr.
Qed.

Lemma df_combo_assets (cc : list CrspClean.t) (eq : list Equity.t) (c : Combo.t) :
  (forall e, In e eq -> nonzero_or_missing (Equity.assets e)) ->
  In c (df_combo cc eq) -> nonzero_or_missing (Combo.assets c).
Proof.
  intros He. unfold df_combo. rewrite sort_values_In, in_flat_map.
  intros (a & _ & Hc). apply in_map_iff in Hc. destruct Hc as (e & <- & Hin).
  apply filter_In in Hin. simpl. apply He. tauto.
Qed.

Lemma joined_assets (df_crsp : list Crsp.t) (df_mflink1 : list Mflink1.t)
    (df_s12 : list S12.t) (df_mflink2 : list Mflink2.t) (c : Combo.t) :
  In c (joined df_crsp df_mflink1 df_s12 df_mflink2) ->
  nonzero_or_missing (Combo.assets c).
Proof.
  unfold joined, holdings. apply df_combo_assets.
  intros e. apply df_eq_assets. intros r. apply df_reports_assets.
Qed.

(** ** The ratios *)

Local Open Scope Q_scope.

Lemma fdiv_nonzero (x : float) (b : Q) :
  ~ b == 0 ->
  fdiv x (Some b) = Ok (match x with Some a => Some (a / b) | None => None end).
Proof.
  intros Hb. unfold fdiv. destruct (Qeq_bool b 0) eqn:E; [|reflexivity].
  apply Qeq_bool_iff in E. contradiction.
Qed.

Lemma Qltb_lt (a b : Q) : Qltb a b = true <-> a < b.
Proof.
  unfold Qltb. rewrite Qlt_alt. destruct (a ?= b); split; congruence.
Qed.

Lemma tna_ratio_value (r : Combo.t) :
  nonzero_or_missing (Combo.assets r) ->
  tna_ratio r
  = Ok (match Combo.assets r with
        | None => Some 1
        | Some a => Some (Combo.crsp_tna r * 1000000 / a / 10000)
        end).
Proof.
  unfold tna_ratio. destruct (Combo.assets r) as [a|]; intros Ha.
  - rewrite (fdiv_nonzero _ a Ha). cbn [bind].
    rewrite fdiv_nonzero by lra. reflexivity.
  - reflexivity.
Qed.

Lemma eq_ratio_1_value (r : Combo.t) :
  1 < Combo.crsp_tna r ->
  eq_ratio_1 r
  = Ok (match Combo.useq_tna_k r with
        | Some u => Some (u * 1000 / (Combo.crsp_tna r * 1000000))
        | None => None
        end).
Proof.
  intros Ht. unfold eq_ratio_1. rewrite fdiv_nonzero by lra.
  destruct (Combo.useq_tna_k r); reflexivity.
Qed.

Lemma eq_ratio_2_value (r : Combo.t) :
  nonzero_or_missing (Combo.assets r) ->
  eq_ratio_2 r
  = Ok (match Combo.assets r with
        | None => Some 1
        | Some a =>
            match Combo.useq_tna_k r with
            | Some u => Some (u * 1000 / (a * 10000))
            | None => None
            end
        end).
Proof.
  unfold eq_ratio_2. destruct (Combo.assets r) as [a|]; intros Ha.
  - simpl in Ha. change (fmul (Some a) (Some 10000)) with (Some (a * 10000)).
    rewrite fdiv_nonzero by lra. destruct (Combo.useq_tna_k r); reflexivity.
  - destruct (Combo.useq_tna_k r); reflexivity.
Qed.

(** ** [mapM] *)

Lemma mapM_Forall2 {A B} (f : A -> result B) (l : list A) (l' : list B) :
  mapM f l = Ok l' <-> Forall2 (fun x y => f x = Ok y) l l'.
Proof.
  revert l'. induction l as [|x l IH]; intros l'; simpl.
  - split.
    + intros E. injection E as <-. constructor.
    + intros F. inversion F. reflexivity.
  - split.
    + destruct (f x) as [y|] eqn:Ex; simpl; [|discriminate].
      destruct (mapM f l) as [ys|] eqn:El; simpl; [|discriminate].
      intros E. injection E as <-. constructor; [exact Ex|]. apply IH. reflexivity.
    + intros F. inversion F as [|? y ? ys Ex Fl]; subst.
      rewrite Ex. simpl. apply IH in Fl. rewrite Fl. reflexivity.
Qed.

Lemma mapM_total {A B} (f : A -> result B) (l : list A) :
  (forall x, In x l -> exists y, f x = Ok y) -> exists l', mapM f l = Ok l'.
Proof.
  induction l as [|x l IH]; simpl; intros Hl.
  - eexists. reflexivity.
  - destruct (Hl x) as (y & Ey); [auto|]. destruct IH as (l' & El); [auto|].
    rewrite Ey, El. simpl. eexists. reflexivity.
Qed.

Lemma Forall2_In_r {A B} (R : A -> B -> Prop) (l : list A) (l' : list B) (y : B) :
  Forall2 R l l' -> In y l' -> exists x, In x l /\ R x y.
Proof.
  induction 1 as [|a b l l' Hab _ IH]; simpl; [contradiction|].
  intros [<-|Hy].
  - exists a. auto.
  - destruct (IH Hy) as (x & Hx & Rx). exists x. auto.
Qed.

Lemma add_tna_ratio_rows (df : list Combo.t) (t : list ComboT.t) :
  add_tna_ratio df = Ok t ->
  map ComboT.row t = df /\
  forall r, In r t ->
    In (ComboT.row r) df /\ tna_ratio (ComboT.row r) = Ok (ComboT.tna_ratio r).
Proof.
  unfold add_tna_ratio. rewrite mapM_Forall2. intros F.
  assert (Hrow : forall x y, (v <- tna_ratio x ;; Ok (ComboT.mk x v)) = Ok y ->
            ComboT.row y = x /\ tna_ratio x = Ok (ComboT.tna_ratio y)).
  { intros x y. destruct (tna_ratio x) as [v|]; simpl; [|discriminate].
    intros E. injection E as <-. auto. }
  split.
  - induction F as [|x y l l' Hxy _ IH]; simpl; [reflexivity|].
    rewrite IH. destruct (Hrow x y Hxy) as [-> _]. reflexivity.
  - intros r Hr. destruct (Forall2_In_r _ _ _ _ F Hr) as (x & Hx & Exr).
    destruct (Hrow x r Exr) as [E1 E2]. rewrite E1. auto.
Qed.

Lemma add_eq_ratios_rows (df : list ComboT.t) (e : list ComboE.t) :
  add_eq_ratios df = Ok e ->
  map ComboE.row e = df /\
  forall r, In r e ->
    In (ComboE.row r) df /\
    eq_ratio_1 (ComboE.base r) = Ok (ComboE.eq_ratio_1 r) /\
    eq_ratio_2 (ComboE.base r) = Ok (ComboE.eq_ratio_2 r).
Proof.
  unfold add_eq_ratios. rewrite mapM_Forall2. intros F.
  assert (Hrow : forall x y,
            (e1 <- eq_ratio_1 (ComboT.row x) ;; e2 <- eq_ratio_2 (ComboT.row x) ;;
             Ok (ComboE.mk x e1 e2)) = Ok y ->
            ComboE.row y = x /\ eq_ratio_1 (ComboT.row x) = Ok (ComboE.eq_ratio_1 y)
            /\ eq_ratio_2 (ComboT.row x) = Ok (ComboE.eq_ratio_2 y)).
  { intros x y. destruct (eq_ratio_1 (ComboT.row x)) as [v1|]; simpl; [|discriminate].
    destruct (eq_ratio_2 (ComboT.row x)) as [v2|]; simpl; [|discriminate].
    intros E. injection E as <-. auto. }
  split.
  - induction F as [|x y l l' Hxy _ IH]; simpl; [reflexivity|].
    rewrite IH. destruct (Hrow x y Hxy) as [-> _]. reflexivity.
  - intros r Hr. destruct (Forall2_In_r _ _ _ _ F Hr) as (x & Hx & Exr).
    destruct (Hrow x r Exr) as (E1 & E2 & E3). unfold ComboE.base.
    rewrite E1. auto.
Qed.

(** The ratio columns can be computed on every table whose [assets] are
    missing or not zero: no denominator is zero. *)
Lemma add_tna_ratio_total (df : list Combo.t) :
  (forall r, In r df -> nonzero_or_missing (Combo.assets r)) ->
  exists t, add_tna_ratio df = Ok t.
Proof.
  intros Hdf. apply mapM_total. intros r Hr.
  rewrite (tna_ratio_value r (Hdf r Hr)). simpl. eexists. reflexivity.
Qed.

Lemma add_eq_ratios_total (df : list ComboT.t) :
  (forall r, In r df -> nonzero_or_missing (Combo.assets (ComboT.row r))
                        /\ 1 < Combo.crsp_tna (ComboT.row r)) ->
  exists e, add_eq_ratios df = Ok e.
Proof.
  intros Hdf. apply mapM_total. intros r Hr. destruct (Hdf r Hr) as [Ha Ht].
  rewrite (eq_ratio_1_value _ Ht), (eq_ratio_2_value _ Ha). simpl.
  eexists. reflexivity.
Qed.

Lemma universe_filters_total (df : list Combo.t) :
  (forall r, In r df -> nonzero_or_missing (Combo.assets r)) ->
  exists t e,
    add_tna_ratio (filter_tna df) = Ok t /\
    add_eq_ratios (filter_tna_ratio t) = Ok e /\
    universe_filters df = Ok (filter_eq_ratio e).
Proof.
  intros Hdf.
  assert (Hf : forall r, In r (filter_tna df) ->
            nonzero_or_missing (Combo.assets r) /\ 1 < Combo.crsp_tna r).
  { intros r Hr. apply filter_In in Hr. destruct Hr as [Hr Ht].
    split; [auto|]. apply Qltb_lt. exact Ht. }
  destruct (add_tna_ratio_total (filter_tna df)) as (t & Et).
  { intros r Hr. apply Hf. exact Hr. }
  destruct (add_tna_ratio_rows _ _ Et) as [_ Hrows].
  destruct (add_eq_ratios_total (filter_tna_ratio t)) as (e & Ee).
  { intros r Hr. apply filter_In in Hr. destruct Hr as [Hr _].
    apply Hf. apply Hrows. exact Hr. }
  exists t, e. split; [exact Et|]. split; [exact Ee|].
  unfold universe_filters. rewrite Et. simpl. rewrite Ee. reflexivity.
Qed.

(** C3. On every joined record [tna_ratio] is exactly 1 when [assets] is
    missing and (crsp_tna * 1e6) / (assets * 1e4) otherwise; the column is
    computed without failure on the records with TNA above 1, and every
    record that passes the TNA-ratio filter has 0.5 < tna_ratio < 2. *)
Theorem tna_ratio_formula_and_bounds
    (df_crsp : list Crsp.t) (df_mflink1 : list Mflink1.t)
    (df_s12 : list S12.t) (df_mflink2 : list Mflink2.t) :
  let df := joined df_crsp df_mflink1 df_s12 df_mflink2 in
  (forall r, In r df ->
     match Combo.assets r with
     | None => tna_ratio r = Ok (Some 1)
     | Some a =>
         exists q, tna_ratio r = Ok (Some q) /\
                   q == (Combo.crsp_tna r * 1000000) / (a * 10000)
     end) /\
  exists t,
    add_tna_ratio (filter_tna df) = Ok t /\
    map ComboT.row t = filter_tna df /\
    (forall r, In r t -> tna_ratio (ComboT.row r) = Ok (ComboT.tna_ratio r)) /\
    (forall r, In r (filter_tna_ratio t) ->
       exists q, ComboT.tna_ratio r = Some q /\ 1 # 2 < q /\ q < 2).
Proof.
  intros df.
  assert (Ha : forall r, In r df -> nonzero_or_missing (Combo.assets r))
    by (intros r; apply joined_assets).
  split.
  - intros r Hr. specialize (Ha r Hr). rewrite (tna_ratio_value r Ha).
    destruct (Combo.assets r) as [a|]; [|reflexivity].
    eexists. split; [reflexivity|]. simpl in Ha. field. exact Ha.
  - destruct (universe_filters_total df Ha) as (t & _ & Et & _).
    exists t. split; [exact Et|].
    destruct (add_tna_ratio_rows _ _ Et) as [Hmap Hrows].
    split; [exact Hmap|]. split; [intros r Hr; apply Hrows; exact Hr|].
    intros r Hr. apply filter_In in Hr. destruct Hr as [_ Hok].
    unfold tna_ratio_ok in Hok. apply andb_true_iff in Hok. destruct Hok as [Hlo Hhi].
    destruct (ComboT.tna_ratio r) as [q|]; [|discriminate].
    exists q. simpl in Hlo, Hhi. rewrite Qltb_lt in Hlo, Hhi. auto.
Qed.

(** On the small universe, the table with [tna_ratio] is reached and
    the record of fund 7 passes the filter with a ratio inside the bounds. *)
Lemma tna_ratio_formula_and_bounds_witness :
  exists t r,
    add_tna_ratio
      (filter_tna (joined sample_crsp sample_mflink1 sample_s12 sample_mflink2)) = Ok t /\
    In r (filter_tna_ratio t) /\ Combo.wficn (ComboT.row r) = 7%Z /\
    exists q, ComboT.tna_ratio r = Some q /\ 1 # 2 < q /\ q < 2.
Proof.
  pose proof (tna_ratio_formula_and_bounds
                sample_crsp sample_mflink1 sample_s12 sample_mflink2) as H.
  cbv zeta in H. destruct H as (_ & t & Et & _ & _ & Hb).
  assert (Hin : exists r, In r (filter_tna_ratio t) /\ Combo.wficn (ComboT.row r) = 7%Z).
  { vm_compute in Et. injection Et as <-. eexists. split; [left|]; reflexivity. }
  destruct Hin as (r & Hr & Ew). exists t, r. auto.
Defined.


Lemma between_bounds (x : float) (lo hi : Q) :
  between x lo hi = true <-> exists q, x = Some q /\ lo <= q <= hi.
Proof.
  unfold between. destruct x as [q|].
  - rewrite andb_true_iff, !Qle_bool_iff. split.
    + intros H. exists q. auto.
    + intros (q' & E & H). injection E as ->. exact H.
  - split; [discriminate | intros (q & E & _); discriminate].
Qed.

(** C2. The notebook always reaches its last table, and every record of
    it has [eq_ratio_1] = useq_tna_k * 1e3 / (crsp_tna * 1e6) and
    [eq_ratio_2] = 1 when [assets] is missing and
    useq_tna_k * 1e3 / (assets * 1e4) otherwise, with at least one of the
    two in [0.8, 1.05]. *)
Theorem equity_ratio_filter
    (df_crsp : list Crsp.t) (df_mflink1 : list Mflink1.t)
    (df_s12 : list S12.t) (df_mflink2 : list Mflink2.t) :
  exists out,
    universe df_crsp df_mflink1 df_s12 df_mflink2 = Ok out /\
    forall r, In r out ->
      let b := ComboE.base r in
      ComboE.eq_ratio_1 r
      = match Combo.useq_tna_k b with
        | Some u => Some (u * 1000 / (Combo.crsp_tna b * 1000000))
        | None => None
        end /\
      ComboE.eq_ratio_2 r
      = match Combo.assets b with
        | None => Some 1
        | Some a =>
            match Combo.useq_tna_k b with
            | Some u => Some (u * 1000 / (a * 10000))
            | None => None
            end
        end /\
      ((exists q, ComboE.eq_ratio_1 r = Some q /\ 4 # 5 <= q <= 21 # 20) \/
       (exists q, ComboE.eq_ratio_2 r = Some q /\ 4 # 5 <= q <= 21 # 20)).
Proof.
  set (df := joined df_crsp df_mflink1 df_s12 df_mflink2).
  assert (Ha : forall r, In r df -> nonzero_or_missing (Combo.assets r))
    by (intros r; apply joined_assets).
  destruct (universe_filters_total df Ha) as (t & e & Et & Ee & Eu).
  exists (filter_eq_ratio e). split; [exact Eu|].
  intros r Hr b. apply filter_In in Hr. destruct Hr as [Hr Hok].
  destruct (add_eq_ratios_rows _ _ Ee) as [_ Hrows].
  destruct (Hrows r Hr) as (Hrow & E1 & E2). fold b in E1, E2.
  apply filter_In in Hrow. destruct Hrow as [Hrow _].
  destruct (add_tna_ratio_rows _ _ Et) as [_ Hrows'].
  destruct (Hrows' _ Hrow) as [Hb _]. change (ComboT.row (ComboE.row r)) with b in Hb.
  apply filter_In in Hb. destruct Hb as [Hb Ht]. apply Qltb_lt in Ht.
  rewrite (eq_ratio_1_value b Ht) in E1. rewrite (eq_ratio_2_value b (Ha b Hb)) in E2.
  injection E1 as E1. injection E2 as E2.
  split; [symmetry; exact E1|]. split; [symmetry; exact E2|].
  unfold eq_ratio_ok in Hok. apply orb_true_iff in Hok.
  rewrite !between_bounds in Hok. exact Hok.
Qed.

(** On the small universe, the last table has the record of fund 7,
    with an equity ratio inside the bounds. *)
Lemma equity_ratio_filter_witness :
  exists out r,
    universe sample_crsp sample_mflink1 sample_s12 sample_mflink2 = Ok out /\
    In r out /\ Combo.wficn (ComboE.base r) = 7%Z /\
    ((exists q, ComboE.eq_ratio_1 r = Some q /\ 4 # 5 <= q <= 21 # 20) \/
     (exists q, ComboE.eq_ratio_2 r = Some q /\ 4 # 5 <= q <= 21 # 20)).
Proof.
  destruct (equity_ratio_filter sample_crsp sample_mflink1 sample_s12 sample_mflink2)
    as (out & Eu & H).
  assert (Hin : exists r, In r out /\ Combo.wficn (ComboE.base r) = 7%Z).
  { vm_compute in Eu. injection Eu as <-. eexists. split; [left|]; reflexivity. }
  destruct Hin as (r & Hr & Ew). exists out, r.
  split; [exact Eu|]. split; [exact Hr|]. split; [exact Ew|]. apply (H r Hr).
Defined.


(** C10. No ratio divides by zero: the [assets] of a joined record are
    missing or not zero, the records that reach [eq_ratio_1] have
    crsp_tna * 1e6 different from zero, and so both ratio steps and the
    whole notebook run to their result. *)
Theorem ratios_never_divide_by_zero
    (df_crsp : list Crsp.t) (df_mflink1 : list Mflink1.t)
    (df_s12 : list S12.t) (df_mflink2 : list Mflink2.t) :
  let df := joined df_crsp df_mflink1 df_s12 df_mflink2 in
  (forall r, In r df -> nonzero_or_missing (Combo.assets r)) /\
  (forall r, In r (filter_tna df) -> ~ Combo.crsp_tna r * 1000000 == 0) /\
  exists t e,
    add_tna_ratio (filter_tna df) = Ok t /\
    add_eq_ratios (filter_tna_ratio t) = Ok e /\
    universe df_crsp df_mflink1 df_s12 df_mflink2 = Ok (filter_eq_ratio e).
Proof.
  intros df.
  assert (Ha : forall r, In r df -> nonzero_or_missing (Combo.assets r))
    by (intros r; apply joined_assets).
  split; [exact Ha|]. split.
  - intros r Hr. apply filter_In in Hr. destruct Hr as [_ Ht].
    apply Qltb_lt in Ht. lra.
  - apply universe_filters_total. exact Ha.
Qed.

(** On the small universe, both ratio steps return their table and
    the notebook ends with two records. *)
Lemma ratios_never_divide_by_zero_witness :
  exists t e,
    add_tna_ratio
      (filter_tna (joined sample_crsp sample_mflink1 sample_s12 sample_mflink2)) = Ok t /\
    add_eq_ratios (filter_tna_ratio t) = Ok e /\
    universe sample_crsp sample_mflink1 sample_s12 sample_mflink2
    = Ok (filter_eq_ratio e) /\
    length (filter_eq_ratio e) = 2%nat.
Proof.
  pose proof (ratios_never_divide_by_zero
                sample_crsp sample_mflink1 sample_s12 sample_mflink2) as H.
  cbv zeta in H. destruct H as (_ & _ & t & e & Et & Ee & Eu).
  exists t, e. split; [exact Et|]. split; [exact Ee|]. split; [exact Eu|].
  pose proof Et as Et'. vm_compute in Et'. injection Et' as <-.
  pose proof Ee as Ee'. vm_compute in Ee'. injection Ee' as <-. reflexivity.
Defined.


(** A zero denominator is what the division reports: it is the recoding
    of zero [assets] and the TNA filter that keep it away. *)
Example zero_denominators_are_reported :
  tna_ratio (Combo.mk 7 2000 2 None (Some 0) (Some 1)) = DivisionByZero /\
  eq_ratio_2 (Combo.mk 7 2000 2 None (Some 0) (Some 1)) = DivisionByZero /\
  eq_ratio_1 (Combo.mk 7 2000 0 None None (Some 1)) = DivisionByZero.
Proof. repeat split. Qed.

(** ** The filters in sequence *)

Lemma filter_drops_iff {A} (p : A -> bool) (l : list A) :
  strictly_narrows (filter p) l <-> exists x, In x l /\ p x = false.
Proof.
  unfold strictly_narrows. induction l as [|x l IH]; simpl.
  - split; [intros H; inversion H | intros (x & [] & _)].
  - destruct (p x) eqn:Px; simpl.
    + rewrite <- Nat.succ_lt_mono, IH. split.
      * intros (z & Hz & Pz). exists z. auto.
      * intros (z & [->|Hz] & Pz); [congruence | exists z; auto].
    + split.
      * intros _. exists x. auto.
      * intros _. apply Nat.lt_succ_r, filter_length_le.
Qed.

Lemma mapM_length {A B} (f : A -> result B) (l : list A) (l' : list B) :
  mapM f l = Ok l' -> length l' = length l.
Proof.
  rewrite mapM_Forall2. intros F. symmetry. induction F; simpl; congruence.
Qed.

Lemma Forall2_In_l {A B} (R : A -> B -> Prop) (l : list A) (l' : list B) (x : A) :
  Forall2 R l l' -> In x l -> exists y, In y l' /\ R x y.
Proof.
  induction 1 as [|a b l l' Hab _ IH]; simpl; [contradiction|].
  intros [<-|Hx].
  - exists b. auto.
  - destruct (IH Hx) as (y & Hy & Rxy). exists y. auto.
Qed.

Lemma add_tna_ratio_has (df : list Combo.t) (t : list ComboT.t) (r : Combo.t) :
  add_tna_ratio df = Ok t -> In r df ->
  exists v, tna_ratio r = Ok v /\ In (ComboT.mk r v) t.
Proof.
  unfold add_tna_ratio. rewrite mapM_Forall2. intros F Hr.
  destruct (Forall2_In_l _ _ _ _ F Hr) as (y & Hy & E).
  destruct (tna_ratio r) as [v|]; simpl in E; [|discriminate].
  injection E as <-. exists v. auto.
Qed.

Lemma add_eq_ratios_has (df : list ComboT.t) (e : list ComboE.t) (t : ComboT.t) :
  add_eq_ratios df = Ok e -> In t df ->
  exists e1 e2, eq_ratio_1 (ComboT.row t) = Ok e1 /\ eq_ratio_2 (ComboT.row t) = Ok e2 /\
                In (ComboE.mk t e1 e2) e.
Proof.
  unfold add_eq_ratios. rewrite mapM_Forall2. intros F Ht.
  destruct (Forall2_In_l _ _ _ _ F Ht) as (y & Hy & E).
  destruct (eq_ratio_1 (ComboT.row t)) as [e1|]; simpl in E; [|discriminate].
  destruct (eq_ratio_2 (ComboT.row t)) as [e2|]; simpl in E; [|discriminate].
  injection E as <-. exists e1, e2. auto.
Qed.

Lemma mask_keeps_exactly {A} (keep : A -> bool) (cond : A -> Prop) :
  (forall r, keep r = true <-> cond r) -> keeps_exactly cond (filter keep).
Proof.
  intros Hk. split; [reflexivity|]. intros r rows. simpl.
  destruct (keep r) eqn:Kr.
  - split; [reflexivity|]. intros Hn. exfalso. apply Hn, Hk, Kr.
  - split; [|reflexivity]. intros Hc. apply Hk in Hc. congruence.
Qed.

Lemma mask_In {A} (keep : A -> bool) (cond : A -> Prop) (rows : list A) (r : A) :
  (forall x, keep x = true <-> cond x) ->
  In r (filter keep rows) <-> In r rows /\ cond r.
Proof. intros Hk. rewrite filter_In, Hk. reflexivity. Qed.

Lemma mask_keeps_all {A} (keep : A -> bool) (cond : A -> Prop) (rows : list A) :
  (forall x, keep x = true <-> cond x) ->
  (forall r, In r rows -> cond r) -> filter keep rows = rows.
Proof.
  intros Hk Hall. apply forallb_filter_id, forallb_forall.
  intros r Hr. apply Hk, Hall, Hr.
Qed.

Lemma mask_drops_iff {A} (keep : A -> bool) (cond : A -> Prop) (rows : list A) :
  (forall x, keep x = true <-> cond x) ->
  strictly_narrows (filter keep) rows <-> exists r, In r rows /\ ~ cond r.
Proof.
  intros Hk. rewrite filter_drops_iff. split.
  - intros (r & Hr & Kr). exists r. split; [exact Hr|].
    intros Hc. apply Hk in Hc. congruence.
  - intros (r & Hr & Hn). exists r. split; [exact Hr|].
    destruct (keep r) eqn:Kr; [|reflexivity]. exfalso. apply Hn, Hk, Kr.
Qed.

Lemma tna_above_1_iff (r : Combo.t) : tna_above_1 r = true <-> tna_over_1 r.
Proof. apply Qltb_lt. Qed.

Lemma tna_ratio_ok_iff (r : ComboT.t) :
  tna_ratio_ok r = true <-> tna_ratio_in_bounds r.
Proof.
  unfold tna_ratio_ok, tna_ratio_in_bounds, fgt, flt.
  destruct (ComboT.tna_ratio r) as [q|].
  - rewrite andb_true_iff, !Qltb_lt. split.
    + intros H. exists q. split; [reflexivity | exact H].
    + intros (q' & E & H). injection E as ->. exact H.
  - split; [discriminate | intros (q & E & _); discriminate].
Qed.

Lemma eq_ratio_ok_iff (r : ComboE.t) :
  eq_ratio_ok r = true <-> eq_ratio_in_bounds r.
Proof.
  unfold eq_ratio_ok, eq_ratio_in_bounds.
  rewrite orb_true_iff, !between_bounds. reflexivity.
Qed.

(** C8, as the code has it.  The three filters run one after the other,
    each on the table the one before kept, with the ratio columns added
    in between to every record, in order.  Each filter keeps exactly the
    records that meet its condition, in their order: year-end TNA above
    1, [tna_ratio] strictly between 0.5 and 2, one of the two equity
    ratios in [0.8, 1.05].  So a record is in a filter's result exactly
    when it is in the filter's table and meets the condition; the filter
    strictly narrows its table exactly when some record of the table does
    not meet the condition, and returns the table unchanged when every
    record meets it.  The last table holds, for the records of the first
    that meet all three conditions, one record each. *)
Theorem filters_narrow_in_sequence
    (df : list Combo.t) (t : list ComboT.t) (e : list ComboE.t) :
  add_tna_ratio (filter_tna df) = Ok t ->
  add_eq_ratios (filter_tna_ratio t) = Ok e ->
  (universe_filters df = Ok (filter_eq_ratio e) /\
   map ComboT.row t = filter_tna df /\
   map ComboE.row e = filter_tna_ratio t) /\
  (keeps_exactly tna_over_1 filter_tna /\
   keeps_exactly tna_ratio_in_bounds filter_tna_ratio /\
   keeps_exactly eq_ratio_in_bounds filter_eq_ratio) /\
  ((forall r, In r (filter_tna df) <-> In r df /\ tna_over_1 r) /\
   (forall r, In r (filter_tna_ratio t) <-> In r t /\ tna_ratio_in_bounds r) /\
   (forall r, In r (filter_eq_ratio e) <-> In r e /\ eq_ratio_in_bounds r)) /\
  ((strictly_narrows filter_tna df <-> exists r, In r df /\ ~ tna_over_1 r) /\
   (strictly_narrows filter_tna_ratio t <->
      exists r, In r t /\ ~ tna_ratio_in_bounds r) /\
   (strictly_narrows filter_eq_ratio e <->
      exists r, In r e /\ ~ eq_ratio_in_bounds r)) /\
  (((forall r, In r df -> tna_over_1 r) -> filter_tna df = df) /\
   ((forall r, In r t -> tna_ratio_in_bounds r) -> filter_tna_ratio t = t) /\
   ((forall r, In r e -> eq_ratio_in_bounds r) -> filter_eq_ratio e = e)) /\
  (length (filter_eq_ratio e) <= length (filter_tna_ratio t)
   <= length (filter_tna df))%nat /\
  (length (filter_tna df) <= length df)%nat /\
  (forall r, In r (filter_eq_ratio e) <->
     In (ComboE.base r) df /\ tna_over_1 (ComboE.base r) /\
     tna_ratio (ComboE.base r) = Ok (ComboT.tna_ratio (ComboE.row r)) /\
     tna_ratio_in_bounds (ComboE.row r) /\
     eq_ratio_1 (ComboE.base r) = Ok (ComboE.eq_ratio_1 r) /\
     eq_ratio_2 (ComboE.base r) = Ok (ComboE.eq_ratio_2 r) /\
     eq_ratio_in_bounds r).
Proof.
  intros Et Ee.
  destruct (add_tna_ratio_rows _ _ Et) as [Mt Rt].
  destruct (add_eq_ratios_rows _ _ Ee) as [Me Re].
  split.
  { split; [unfold universe_filters; rewrite Et; simpl; rewrite Ee; reflexivity|].
    split; assumption. }
  split.
  { split; [exact (mask_keeps_exactly _ _ tna_above_1_iff)|].
    split; [exact (mask_keeps_exactly _ _ tna_ratio_ok_iff)
           |exact (mask_keeps_exactly _ _ eq_ratio_ok_iff)]. }
  split.
  { split; [intros r; exact (mask_In _ _ df r tna_above_1_iff)|].
    split; [intros r; exact (mask_In _ _ t r tna_ratio_ok_iff)
           |intros r; exact (mask_In _ _ e r eq_ratio_ok_iff)]. }
  split.
  { split; [exact (mask_drops_iff _ _ df tna_above_1_iff)|].
    split; [exact (mask_drops_iff _ _ t tna_ratio_ok_iff)
           |exact (mask_drops_iff _ _ e eq_ratio_ok_iff)]. }
  split.
  { split; [exact (mask_keeps_all _ _ df tna_above_1_iff)|].
    split; [exact (mask_keeps_all _ _ t tna_ratio_ok_iff)
           |exact (mask_keeps_all _ _ e eq_ratio_ok_iff)]. }
  split.
  { split.
    - unfold filter_eq_ratio. rewrite <- (mapM_length _ _ _ Ee). apply filter_length_le.
    - unfold filter_tna_ratio at 1. rewrite <- (mapM_length _ _ _ Et).
      apply filter_length_le. }
  split; [apply filter_length_le|].
  intros r. split.
  - intros Hr. apply (mask_In _ _ e r eq_ratio_ok_iff) in Hr. destruct Hr as [Hr Hok].
    destruct (Re r Hr) as (Hrow & E1 & E2).
    apply (mask_In _ _ t _ tna_ratio_ok_iff) in Hrow. destruct Hrow as [Hrow Hok'].
    destruct (Rt _ Hrow) as [Hb Er].
    apply (mask_In _ _ df _ tna_above_1_iff) in Hb. destruct Hb as [Hb Ht].
    repeat split; assumption.
  - intros (Hb & Ht & Er & Hok' & E1 & E2 & Hok).
    assert (Hb' : In (ComboE.base r) (filter_tna df))
      by (apply (mask_In _ _ df _ tna_above_1_iff); auto).
    destruct (add_tna_ratio_has _ _ _ Et Hb') as (v & Ev & Hv).
    unfold ComboE.base in Ev, Hv, Er. rewrite Er in Ev. injection Ev as <-.
    assert (Hrow : In (ComboE.row r) (filter_tna_ratio t)).
    { apply (mask_In _ _ t _ tna_ratio_ok_iff). split; [|exact Hok'].
      destruct (ComboE.row r); exact Hv. }
    destruct (add_eq_ratios_has _ _ _ Ee Hrow) as (e1 & e2 & E1' & E2' & He).
    unfold ComboE.base in E1, E2. rewrite E1 in E1'. rewrite E2 in E2'.
    injection E1' as <-. injection E2' as <-.
    apply (mask_In _ _ e r eq_ratio_ok_iff). split; [|exact Hok].
    destruct r; exact He.
Qed.

(** A fund with one share class and one holdings report without
    [assets]: every filter keeps its record, none narrows its table. *)
Lemma filters_can_keep_every_record :
  let df := joined [Crsp.mk 1 (mkdate 2000 Dec 29) None (Some 2)]
                   [Mflink1.mk 1 (Some 7%Z)]
                   [S12.mk 5 (mkdate 2000 Dec 31) None (Some 2000)]
                   [Mflink2.mk (mkdate 2000 Dec 31) 5 (Some 7%Z)] in
  exists t e,
    add_tna_ratio (filter_tna df) = Ok t /\
    add_eq_ratios (filter_tna_ratio t) = Ok e /\
    length df = 1%nat /\
    ~ strictly_narrows filter_tna df /\
    ~ strictly_narrows filter_tna_ratio t /\
    ~ strictly_narrows filter_eq_ratio e.
Proof.
  intros df. eexists. eexists.
  split; [vm_compute; reflexivity|]. split; [vm_compute; reflexivity|].
  split; [reflexivity|].
  unfold strictly_narrows. repeat split; vm_compute; lia.
Qed.

(** Three joined records, one dropped by each of the first two filters. *)
Lemma filters_narrow_in_sequence_witness :
  let df := [Combo.mk 1 2000 (1 # 2) None None (Some 400);
             Combo.mk 2 2000 10 None (Some 100) (Some 9000);
             Combo.mk 3 2000 10 None (Some 1000) (Some 9000)] in
  exists t e,
    add_tna_ratio (filter_tna df) = Ok t /\
    add_eq_ratios (filter_tna_ratio t) = Ok e /\
    (length df = 3 /\ length t = 2 /\ length e = 1 /\ length (filter_eq_ratio e) = 1)%nat /\
    universe_filters df = Ok (filter_eq_ratio e) /\
    strictly_narrows filter_tna df /\
    strictly_narrows filter_tna_ratio t /\
    ~ strictly_narrows filter_eq_ratio e.
Proof.
  intros df. eexists. eexists.
  split; [vm_compute; reflexivity|]. split; [vm_compute; reflexivity|].
  split; [repeat split|].
  split; [|unfold strictly_narrows; repeat split; vm_compute; lia].
  refine (proj1 (proj1 (filters_narrow_in_sequence df _ _ _ _)));
    vm_compute; reflexivity.
Defined.

(** ** Unmatched identifiers *)

Local Open Scope Z_scope.

Lemma merge_mflink1_unmatched (c1 c2 : list Crsp.t) (r : Crsp.t) (mf : list Mflink1.t) :
  (forall l, In l mf -> Mflink1.crsp_fundno l <> Crsp.crsp_fundno r) ->
  merge_mflink1 (c1 ++ r :: c2) mf = merge_mflink1 (c1 ++ c2) mf.
Proof.
  intros Hr. unfold merge_mflink1. rewrite !flat_map_app. simpl.
  rewrite filter_none; [reflexivity|].
  intros l Hl. apply Z.eqb_neq. auto.
Qed.

Lemma flat_map_filter {A B} (expand : A -> list B) (keep : A -> bool) :
  (forall x, keep x = false -> expand x = []) ->
  forall rows, flat_map expand (filter keep rows) = flat_map expand rows.
Proof.
  intros Hp rows. induction rows as [|x rows IH]; simpl; [reflexivity|].
  destruct (keep x) eqn:Px; simpl; rewrite IH; [reflexivity|].
  rewrite (Hp x Px). reflexivity.
Qed.

Lemma df_s12_linked_unmatched (s1 s2 : list S12.t) (h : S12.t) (mf : list Mflink2.t) :
  asof_wficn (sort_values (fun l => (Mflink2.fdate l, Mflink2.fundno l)) mf) h = None ->
  df_s12_linked (s1 ++ h :: s2) mf = df_s12_linked (s1 ++ s2) mf.
Proof.
  intros Hh. unfold df_s12_linked. cbv zeta.
  set (right := sort_values (fun l => (Mflink2.fdate l, Mflink2.fundno l)) mf) in *.
  set (f := fun r : S12.t => match asof_wficn right r with
                             | Some w => _ | None => [] end).
  set (p := fun r : S12.t => notnull (asof_wficn right r)).
  assert (Hp : forall x, p x = false -> f x = []).
  { intros x. unfold p, f. destruct (asof_wficn right x); [discriminate | reflexivity]. }
  rewrite <- (flat_map_filter f p Hp). symmetry.
  rewrite <- (flat_map_filter f p Hp). symmetry.
  rewrite !filter_sort_values, !filter_app. simpl.
  unfold p at 2. rewrite Hh. reflexivity.
Qed.

(** A report id that the link table does not have gets no [wficn]. *)
Lemma asof_backward_unmatched (right : list Mflink2.t) (fundno : Z) (d : date) :
  (forall l, In l right -> Mflink2.fundno l <> fundno) ->
  asof_backward right fundno d = None.
Proof.
  unfold asof_backward. generalize (@None Mflink2.t).
  induction right as [|l right IH]; intros found Hr; simpl; [reflexivity|].
  assert (E : (Mflink2.fundno l =? fundno) = false)
    by (apply Z.eqb_neq, Hr; left; reflexivity).
  rewrite E. simpl. apply IH. intros l' Hl'. apply Hr. right. exact Hl'.
Qed.

Lemma asof_forward_unmatched (right : list Mflink2.t) (fundno : Z) (d : date) :
  (forall l, In l right -> Mflink2.fundno l <> fundno) ->
  asof_forward right fundno d = None.
Proof.
  unfold asof_forward. induction right as [|l right IH]; intros Hr; simpl;
    [reflexivity|].
  assert (E : (Mflink2.fundno l =? fundno) = false)
    by (apply Z.eqb_neq, Hr; left; reflexivity).
  rewrite E. simpl. apply IH. intros l' Hl'. apply Hr. right. exact Hl'.
Qed.

Lemma asof_wficn_unmatched (right : list Mflink2.t) (h : S12.t) :
  (forall l, In l right -> Mflink2.fundno l <> S12.fundno h) ->
  asof_wficn right h = None.
Proof.
  intros Hr. unfold asof_wficn, asof_nearest.
  rewrite asof_backward_unmatched, asof_forward_unmatched by exact Hr.
  reflexivity.
Qed.

(** C6. A return row whose share class has no row in [df_mflink1], and a
    holdings row that the nearest-date match leaves without a [wficn], leave
    no trace: every table from the linked ones down to the last is the
    one computed without them, and the notebook ends with a table, not
    with an error. *)
Theorem unmatched_rows_are_dropped
    (c1 c2 : list Crsp.t) (r : Crsp.t) (df_mflink1 : list Mflink1.t)
    (s1 s2 : list S12.t) (h : S12.t) (df_mflink2 : list Mflink2.t) :
  (forall l, In l df_mflink1 -> Mflink1.crsp_fundno l <> Crsp.crsp_fundno r) ->
  asof_wficn (sort_values (fun l => (Mflink2.fdate l, Mflink2.fundno l)) df_mflink2) h
  = None ->
  clean_crsp (c1 ++ r :: c2) df_mflink1 = clean_crsp (c1 ++ c2) df_mflink1 /\
  df_crsp_clean (clean_crsp (c1 ++ r :: c2) df_mflink1)
  = df_crsp_clean (clean_crsp (c1 ++ c2) df_mflink1) /\
  df_s12_linked (s1 ++ h :: s2) df_mflink2 = df_s12_linked (s1 ++ s2) df_mflink2 /\
  holdings (s1 ++ h :: s2) df_mflink2 = holdings (s1 ++ s2) df_mflink2 /\
  joined (c1 ++ r :: c2) df_mflink1 (s1 ++ h :: s2) df_mflink2
  = joined (c1 ++ c2) df_mflink1 (s1 ++ s2) df_mflink2 /\
  exists out,
    universe (c1 ++ r :: c2) df_mflink1 (s1 ++ h :: s2) df_mflink2 = Ok out /\
    universe (c1 ++ c2) df_mflink1 (s1 ++ s2) df_mflink2 = Ok out.
Proof.
  intros Hr Hh.
  assert (E1 : clean_crsp (c1 ++ r :: c2) df_mflink1 = clean_crsp (c1 ++ c2) df_mflink1).
  { unfold clean_crsp, df_crsp_linked. rewrite (merge_mflink1_unmatched _ _ _ _ Hr).
    reflexivity. }
  assert (E2 : df_s12_linked (s1 ++ h :: s2) df_mflink2
               = df_s12_linked (s1 ++ s2) df_mflink2)
    by (apply df_s12_linked_unmatched; exact Hh).
  assert (E3 : joined (c1 ++ r :: c2) df_mflink1 (s1 ++ h :: s2) df_mflink2
               = joined (c1 ++ c2) df_mflink1 (s1 ++ s2) df_mflink2).
  { unfold joined, holdings. rewrite E1, E2. reflexivity. }
  split; [exact E1|]. split; [rewrite E1; reflexivity|]. split; [exact E2|].
  split; [unfold holdings; rewrite E2; reflexivity|]. split; [exact E3|].
  destruct (universe_filters_total (joined (c1 ++ c2) df_mflink1 (s1 ++ s2) df_mflink2))
    as (t & e & _ & _ & Eu).
  { intros x. apply joined_assets. }
  exists (filter_eq_ratio e). unfold universe. rewrite E3. auto.
Qed.

(** Share class 9 is not in [df_mflink1] and report id 8 is not in
    [df_mflink2]: the joined table is the one of the other rows. *)
Lemma unmatched_rows_are_dropped_witness :
  let a := Crsp.mk 1 (mkdate 2000 Dec 29) (Some (1 # 100)) (Some 2%Q) in
  let r := Crsp.mk 9 (mkdate 2000 Dec 29) (Some (5 # 100)) (Some 40%Q) in
  let s := S12.mk 5 (mkdate 2000 Dec 31) None (Some 2000%Q) in
  let h := S12.mk 8 (mkdate 2000 Sep 30) (Some 30%Q) (Some 10%Q) in
  let df_mflink1 := [Mflink1.mk 1 (Some 7)] in
  let df_mflink2 := [Mflink2.mk (mkdate 2000 Dec 31) 5 (Some 7)] in
  joined ([a] ++ r :: []) df_mflink1 ([] ++ h :: [s]) df_mflink2
  = [Combo.mk 7 2000 (2 # 1) (Some (1 # 100)) None (Some (2000 # 1))] /\
  joined ([a] ++ r :: []) df_mflink1 ([] ++ h :: [s]) df_mflink2
  = joined ([a] ++ []) df_mflink1 ([] ++ [s]) df_mflink2.
Proof.
  intros a r s h df_mflink1 df_mflink2. split; [vm_compute; reflexivity|].
  apply (unmatched_rows_are_dropped [a] [] r df_mflink1 [] [s] h df_mflink2).
  - intros l [<-|[]]. discriminate.
  - apply asof_wficn_unmatched. intros l [<-|[]]. discriminate.
Defined.

(** ** The last report of a year *)

Lemma last_valid_present {A} (l : list (option A)) (v : A) :
  last_valid (l ++ [Some v]) = Some v.
Proof. induction l as [|x l IH]; simpl; [|rewrite IH]; reflexivity. Qed.

Lemma last_valid_missing {A} (l : list (option A)) :
  last_valid (l ++ [None]) = last_valid l.
Proof.
  induction l as [|x l IH]; simpl; [reflexivity|]. rewrite IH. reflexivity.
Qed.

(** C5, where the code departs from it.  Fund 7 reports in March 2011 with
    assets 100 and holdings 50, and in December 2011 with no assets and
    holdings 60.  The missing assets are filled with zero for the grouping
    and recoded to missing after it, but the fund-year row then takes its
    [assets] from the March report and its [useq_tna_k] from the December
    one: [last] skips the missing value instead of returning the last
    report. *)
Theorem last_skips_missing_assets :
  let df_s12 := [S12.mk 5 (mkdate 2011 Mar 31) (Some 100%Q) (Some 50%Q);
                 S12.mk 5 (mkdate 2011 Dec 31) None (Some 60%Q)] in
  let df_mflink2 := [Mflink2.mk (mkdate 2011 Jan 31) 5 (Some 7)] in
  df_reports (df_s12_linked df_s12 df_mflink2)
  = [Report.mk 2011 (mkdate 2011 Mar 31) 7 (Some 100%Q) (50 # 1);
     Report.mk 2011 (mkdate 2011 Dec 31) 7 None (60 # 1)] /\
  holdings df_s12 df_mflink2 = [Equity.mk 7 2011 (Some 100%Q) (Some (60 # 1))].
Proof. split; vm_compute; reflexivity. Qed.

(** * Further properties of the notebook *)

(** ** The nearest-date match *)

Local Open Scope Z_scope.

Lemma leb_key_antisym {K} `{OrdLaws K} (x y : K) :
  leb_key x y = true -> leb_key y x = true -> x = y.
Proof.
  unfold leb_key. rewrite (cmp_antisym x y).
  destruct (cmp x y) eqn:E; simpl; try discriminate.
  intros _ _. apply cmp_eq. exact E.
Qed.

Lemma leb_key_refl {K} `{OrdLaws K} (x : K) : leb_key x x = true.
Proof. unfold leb_key. rewrite cmp_refl. reflexivity. Qed.

Lemma leb_key_fst {A B} `{OrdLaws A} `{OrdLaws B} (a a' : A) (b b' : B) :
  leb_key (a, b) (a', b') = true -> leb_key a a' = true.
Proof.
  unfold leb_key. simpl. destruct (cmp a a'); auto.
Qed.

(** What a scan that keeps the last hit returns. *)
Lemma last_hit_split {A} (hit : A -> bool) (rows : list A) (b : A) :
  fold_left (fun found x => if hit x then Some x else found) rows None = Some b ->
  exists before after,
    rows = before ++ b :: after /\ hit b = true /\
    Forall (fun x => hit x = false) after.
Proof.
  induction rows as [|x rows IH] using rev_ind; [discriminate|].
  rewrite fold_left_app. simpl. destruct (hit x) eqn:Hx.
  - intros E. injection E as ->. exists rows, []. auto.
  - intros E. destruct (IH E) as (before & after & -> & Hb & Ha).
    exists before, (after ++ [x]). rewrite <- app_assoc. simpl.
    split; [reflexivity|]. split; [exact Hb|].
    apply Forall_app. split; [exact Ha | constructor; auto].
Qed.

Lemma last_hit_none {A} (hit : A -> bool) (rows : list A) :
  fold_left (fun found x => if hit x then Some x else found) rows None = None ->
  Forall (fun x => hit x = false) rows.
Proof.
  induction rows as [|x rows IH] using rev_ind; [constructor|].
  rewrite fold_left_app. simpl. destruct (hit x) eqn:Hx; [discriminate|].
  intros E. apply Forall_app. split; [apply IH, E | constructor; auto].
Qed.

Lemma first_hit_split {A} (hit : A -> bool) (rows : list A) (f : A) :
  find hit rows = Some f ->
  exists before after,
    rows = before ++ f :: after /\ hit f = true /\
    Forall (fun x => hit x = false) before.
Proof.
  induction rows as [|x rows IH]; simpl; [discriminate|].
  destruct (hit x) eqn:Hx.
  - intros E. injection E as ->. exists [], rows. auto.
  - intros E. destruct (IH E) as (before & after & -> & Hf & Hb).
    exists (x :: before), after. auto.
Qed.

Lemma asof_backward_Some (right : list Mflink2.t) (fundno : Z) (d : date) (b : Mflink2.t) :
  asof_backward right fundno d = Some b ->
  exists before after,
    right = before ++ b :: after /\
    Mflink2.fundno b = fundno /\ leb_key (Mflink2.fdate b) d = true /\
    Forall (fun l => (Mflink2.fundno l =? fundno) && leb_key (Mflink2.fdate l) d = false)
      after.
Proof.
  intros E. apply last_hit_split in E. destruct E as (before & after & -> & Hb & Ha).
  apply andb_true_iff in Hb. destruct Hb as [Hf Hd]. apply Z.eqb_eq in Hf.
  exists before, after. auto.
Qed.

Lemma asof_forward_Some (right : list Mflink2.t) (fundno : Z) (d : date) (f : Mflink2.t) :
  asof_forward right fundno d = Some f ->
  exists before after,
    right = before ++ f :: after /\
    Mflink2.fundno f = fundno /\ leb_key d (Mflink2.fdate f) = true /\
    Forall (fun l => (Mflink2.fundno l =? fundno) && leb_key d (Mflink2.fdate l) = false)
      before.
Proof.
  intros E. apply first_hit_split in E. destruct E as (before & after & -> & Hb & Ha).
  apply andb_true_iff in Hb. destruct Hb as [Hf Hd]. apply Z.eqb_eq in Hf.
  exists before, after. auto.
Qed.

Lemma asof_nearest_cases (right : list Mflink2.t) (fundno : Z) (d : date) (l : Mflink2.t) :
  asof_nearest right fundno d = Some l ->
  asof_backward right fundno d = Some l \/ asof_forward right fundno d = Some l.
Proof.
  unfold asof_nearest.
  destruct (asof_backward right fundno d) as [b|], (asof_forward right fundno d) as [f|];
    try (intros E; injection E as ->; auto); try discriminate.
  destruct (_ <=? _); intros E; injection E as ->; auto.
Qed.

(** X1. The link row that [merge_asof] gives a holdings row is a row of
    the link table with the same report id, and a holdings row stays
    without one exactly when the link table has no row of its report id,
    whatever the dates (there is no tolerance). *)
Theorem asof_match_is_by_report_id (right : list Mflink2.t) (fundno : Z) (d : date) :
  (forall l, asof_nearest right fundno d = Some l ->
     In l right /\ Mflink2.fundno l = fundno) /\
  (asof_nearest right fundno d = None <->
     forall l, In l right -> Mflink2.fundno l <> fundno).
Proof.
  split.
  - intros l E. destruct (asof_nearest_cases _ _ _ _ E) as [E'|E'].
    + apply asof_backward_Some in E'. destruct E' as (p & q & -> & Hf & _).
      split; [apply in_elt | exact Hf].
    + apply asof_forward_Some in E'. destruct E' as (p & q & -> & Hf & _).
      split; [apply in_elt | exact Hf].
  - split.
    + intros E l Hl Hf. unfold asof_nearest in E.
      destruct (asof_backward right fundno d) as [b|] eqn:Eb.
      { destruct (asof_forward right fundno d); [destruct (_ <=? _)|]; discriminate. }
      destruct (asof_forward right fundno d) as [f|] eqn:Ef; [discriminate|].
      apply last_hit_none in Eb. rewrite Forall_forall in Eb. specialize (Eb l Hl).
      pose proof (find_none _ _ Ef l Hl) as Ef'. simpl in Eb, Ef'.
      rewrite (proj2 (Z.eqb_eq _ _) Hf) in Eb, Ef'. simpl in Eb, Ef'.
      apply leb_key_total in Eb. congruence.
    + intros Hr. unfold asof_nearest.
      rewrite asof_backward_unmatched, asof_forward_unmatched by exact Hr.
      reflexivity.
Qed.

Lemma sorted_app_before {A} (R : A -> A -> Prop) (l1 l2 : list A) (x : A) :
  StronglySorted R (l1 ++ x :: l2) -> Forall (fun a => R a x) l1.
Proof.
  induction l1 as [|h t IH]; simpl; intros Hs; [constructor|].
  inversion Hs as [|? ? Ht Hh]; subst. constructor; [|apply IH, Ht].
  rewrite Forall_forall in Hh. apply Hh, in_elt.
Qed.

(** X2. A holdings row whose report id has a link row of exactly its date
    is matched to a link row of that date: an exact date is never passed
    over for a neighbouring one. *)
Theorem asof_exact_date_wins (df_mflink2 : list Mflink2.t) (fundno : Z) (d : date) :
  let right := sort_values (fun l => (Mflink2.fdate l, Mflink2.fundno l)) df_mflink2 in
  (exists e, In e df_mflink2 /\ Mflink2.fundno e = fundno /\ Mflink2.fdate e = d) ->
  exists l, asof_nearest right fundno d = Some l /\
            In l df_mflink2 /\ Mflink2.fundno l = fundno /\ Mflink2.fdate l = d.
Proof.
  intros right (e & He & Hf & Hd).
  assert (Hs : StronglySorted (le_row (fun l => (Mflink2.fdate l, Mflink2.fundno l))) right)
    by apply sort_values_sorted.
  assert (He' : In e right) by (apply sort_values_In; exact He).
  assert (Hhit : (Mflink2.fundno e =? fundno) = true) by (apply Z.eqb_eq; exact Hf).
  destruct (asof_backward right fundno d) as [b|] eqn:Eb.
  2:{ apply last_hit_none in Eb. rewrite Forall_forall in Eb. specialize (Eb e He').
      simpl in Eb. rewrite Hhit, Hd, leb_key_refl in Eb. discriminate. }
  assert (Hb : Mflink2.fundno b = fundno /\ Mflink2.fdate b = d /\ In b right).
  { destruct (asof_backward_Some _ _ _ _ Eb) as (p & q & Er & Hbf & Hbd & Hq).
    split; [exact Hbf|]. split; [|rewrite Er; apply in_elt].
    apply leb_key_antisym; [exact Hbd|].
    rewrite Er in He', Hs. apply in_app_or in He'. destruct He' as [Hp|[->|Hq']].
    - apply sorted_app_before in Hs. rewrite Forall_forall in Hs.
      specialize (Hs e Hp). unfold le_row in Hs. apply leb_key_fst in Hs.
      rewrite Hd in Hs. exact Hs.
    - rewrite Hd. apply leb_key_refl.
    - rewrite Forall_forall in Hq. specialize (Hq e Hq').
      simpl in Hq. rewrite Hhit, Hd, leb_key_refl in Hq. discriminate. }
  destruct Hb as (Hbf & Hbd & Hbin).
  exists b. split.
  - unfold asof_nearest. rewrite Eb.
    destruct (asof_forward right fundno d) as [f|] eqn:Ef; [|reflexivity].
    assert (Hfd : Mflink2.fdate f = d).
    { destruct (asof_forward_Some _ _ _ _ Ef) as (p & q & Er & Hff & Hfd & Hp).
      symmetry. apply leb_key_antisym; [exact Hfd|].
      rewrite Er in He', Hs. apply in_app_or in He'. destruct He' as [Hp'|[->|Hq]].
      - rewrite Forall_forall in Hp. specialize (Hp e Hp').
        simpl in Hp. rewrite Hhit, Hd, leb_key_refl in Hp. discriminate.
      - rewrite Hd. apply leb_key_refl.
      - apply sorted_app_inv in Hs. rewrite Forall_forall in Hs.
        specialize (Hs e Hq). unfold le_row in Hs. apply leb_key_fst in Hs.
        rewrite Hd in Hs. exact Hs. }
    rewrite Hbd, Hfd, Z.sub_diag. reflexivity.
  - unfold right in Hbin. apply sort_values_In in Hbin. auto.
Qed.

(** Report id 5 has link rows of 30 June and 31 December 2000; a report
    of 30 June is linked by the June row. *)
Lemma asof_exact_date_wins_witness :
  let df_mflink2 := [Mflink2.mk (mkdate 2000 Dec 31) 5 (Some 8);
                     Mflink2.mk (mkdate 2000 Jun 30) 5 (Some 7);
                     Mflink2.mk (mkdate 2000 Jun 30) 6 (Some 9)] in
  let right := sort_values (fun l => (Mflink2.fdate l, Mflink2.fundno l)) df_mflink2 in
  asof_nearest right 5 (mkdate 2000 Jun 30) = Some (Mflink2.mk (mkdate 2000 Jun 30) 5 (Some 7)) /\
  exists l, asof_nearest right 5 (mkdate 2000 Jun 30) = Some l /\
            In l df_mflink2 /\ Mflink2.fundno l = 5 /\ Mflink2.fdate l = mkdate 2000 Jun 30.
Proof.
  intros df_mflink2 right. split; [reflexivity|].
  apply (asof_exact_date_wins df_mflink2 5 (mkdate 2000 Jun 30)).
  exists (Mflink2.mk (mkdate 2000 Jun 30) 5 (Some 7)). simpl. auto.
Defined.

(** Report ids 5 and 6 are in the link table, report id 4 is not. *)
Lemma asof_match_is_by_report_id_witness :
  let right := [Mflink2.mk (mkdate 2000 Jun 30) 5 (Some 7);
                Mflink2.mk (mkdate 2000 Jun 30) 6 (Some 9)] in
  asof_nearest right 4 (mkdate 2000 Jun 30) = None /\
  (In (Mflink2.mk (mkdate 2000 Jun 30) 6 (Some 9)) right /\
   Mflink2.fundno (Mflink2.mk (mkdate 2000 Jun 30) 6 (Some 9)) = 6).
Proof.
  intros right. split.
  - apply (proj2 (asof_match_is_by_report_id right 4 (mkdate 2000 Jun 30))).
    intros l [<-|[<-|[]]]; discriminate.
  - apply (proj1 (asof_match_is_by_report_id right 6 (mkdate 1999 Jan 31))).
    reflexivity.
Defined.

(** ** How the two links change the number of rows *)

Lemma flat_map_optional_length {A B} (pick : A -> option B) (rows : list A) :
  length (flat_map (fun r => match pick r with Some b => [b] | None => [] end) rows)
  = length (filter (fun r => notnull (pick r)) rows).
Proof.
  induction rows as [|r rows IH]; simpl; [reflexivity|].
  destruct (pick r); simpl; rewrite IH; reflexivity.
Qed.

Lemma df_s12_linked_unfold (df_s12 : list S12.t) (df_mflink2 : list Mflink2.t) :
  df_s12_linked df_s12 df_mflink2
  = flat_map (fun r =>
      match option_map (fun w => Holding.mk (dt_year (S12.fdate r)) (S12.fdate r) w
                                   (S12.assets r) (S12.useq_tna_k r))
              (asof_wficn
                 (sort_values (fun l => (Mflink2.fdate l, Mflink2.fundno l)) df_mflink2) r)
      with Some b => [b] | None => [] end)
      (sort_values (fun r => (S12.fdate r, S12.fundno r)) df_s12).
Proof.
  unfold df_s12_linked. apply flat_map_ext. intros r.
  destruct (asof_wficn _ r); reflexivity.
Qed.

(** X3. The holdings link keeps one row for each holdings row that gets a
    [wficn] and nothing else: the linked table is never longer than
    [df_s12], and each of its rows is a row of [df_s12] with the [wficn]
    of its match and the year of its date. *)
Theorem holdings_link_keeps_matched_rows
    (df_s12 : list S12.t) (df_mflink2 : list Mflink2.t) :
  let right := sort_values (fun l => (Mflink2.fdate l, Mflink2.fundno l)) df_mflink2 in
  length (df_s12_linked df_s12 df_mflink2)
  = length (filter (fun r => notnull (asof_wficn right r)) df_s12) /\
  (length (df_s12_linked df_s12 df_mflink2) <= length df_s12)%nat /\
  (forall h, In h (df_s12_linked df_s12 df_mflink2) <->
     exists r, In r df_s12 /\ asof_wficn right r = Some (Holding.wficn h) /\
       h = Holding.mk (dt_year (S12.fdate r)) (S12.fdate r) (Holding.wficn h)
             (S12.assets r) (S12.useq_tna_k r)).
Proof.
  intros right.
  assert (Hlen : length (df_s12_linked df_s12 df_mflink2)
                 = length (filter (fun r => notnull (asof_wficn right r)) df_s12)).
  { rewrite df_s12_linked_unfold, flat_map_optional_length. fold right.
    rewrite (filter_ext _ (fun r => notnull (asof_wficn right r))).
    2:{ intros r. destruct (asof_wficn right r); reflexivity. }
    rewrite filter_sort_values. apply Permutation_length, sort_values_perm. }
  split; [exact Hlen|]. split; [rewrite Hlen; apply filter_length_le|].
  intros h. unfold df_s12_linked. fold right. rewrite in_flat_map. split.
  - intros (r & Hr & Hh). apply sort_values_In in Hr. exists r.
    destruct (asof_wficn right r) as [w|]; [|contradiction].
    destruct Hh as [<-|[]]. simpl. auto.
  - intros (r & Hr & Ew & Eh). exists r. split; [apply sort_values_In; exact Hr|].
    rewrite Ew. left. symmetry. exact Eh.
Qed.

Lemma holdings_link_keeps_matched_rows_witness :
  length (df_s12_linked sample_s12 sample_mflink2) = 3%nat /\
  (length (df_s12_linked sample_s12 sample_mflink2) <= length sample_s12)%nat.
Proof.
  split; [reflexivity|].
  apply (holdings_link_keeps_matched_rows sample_s12 sample_mflink2).
Defined.

Lemma filter_key_length {A} (key : A -> Z) (k : Z) (rows : list A) :
  NoDup (map key rows) -> (length (filter (fun x => (key x =? k)%Z) rows) <= 1)%nat.
Proof.
  induction rows as [|x rows IH]; simpl; intros Hn; [lia|].
  inversion Hn as [|? ? Hx Hrows]; subst. specialize (IH Hrows).
  destruct (key x =? k) eqn:E; [|exact IH]. apply Z.eqb_eq in E. simpl.
  rewrite filter_none; [simpl; lia|].
  intros y Hy. apply Z.eqb_neq. intros Ey. apply Hx. rewrite E, <- Ey.
  apply in_map. exact Hy.
Qed.

(** X4. The CRSP link is an inner join: a merged row pairs a CRSP row with
    a link row of its share class, a CRSP row appears once for each link
    row of its share class, and when no share class has two link rows the
    merge cannot make the table longer. *)
Theorem crsp_link_multiplies_by_link_rows
    (df_crsp : list Crsp.t) (df_mflink1 : list Mflink1.t) :
  (forall r w, In (r, w) (merge_mflink1 df_crsp df_mflink1) <->
     In r df_crsp /\
     exists l, In l df_mflink1 /\
               Mflink1.crsp_fundno l = Crsp.crsp_fundno r /\ Mflink1.wficn l = w) /\
  length (merge_mflink1 df_crsp df_mflink1)
  = list_sum (map (fun r => length (filter (fun l => Mflink1.crsp_fundno l
                                                      =? Crsp.crsp_fundno r) df_mflink1))
                df_crsp) /\
  (NoDup (map Mflink1.crsp_fundno df_mflink1) ->
   (length (merge_mflink1 df_crsp df_mflink1) <= length df_crsp)%nat).
Proof.
  assert (Hlen : length (merge_mflink1 df_crsp df_mflink1)
    = list_sum (map (fun r => length (filter (fun l => Mflink1.crsp_fundno l
                                                       =? Crsp.crsp_fundno r) df_mflink1))
                  df_crsp)).
  { unfold merge_mflink1. induction df_crsp as [|r rows IH]; simpl; [reflexivity|].
    rewrite length_app, length_map, IH. reflexivity. }
  split; [|split; [exact Hlen|]].
  - intros r w. unfold merge_mflink1. rewrite in_flat_map. split.
    + intros (r' & Hr' & Hin). apply in_map_iff in Hin.
      destruct Hin as (l & E & Hl). injection E as -> <-.
      apply filter_In in Hl. destruct Hl as [Hl Hk]. apply Z.eqb_eq in Hk.
      split; [exact Hr'|]. exists l. auto.
    + intros (Hr & l & Hl & Hk & Hw). exists r. split; [exact Hr|].
      apply in_map_iff. exists l. split; [rewrite Hw; reflexivity|].
      apply filter_In. split; [exact Hl | apply Z.eqb_eq; exact Hk].
  - intros Hn. rewrite Hlen. clear Hlen.
    induction df_crsp as [|r rows IH]; simpl; [lia|].
    pose proof (filter_key_length Mflink1.crsp_fundno (Crsp.crsp_fundno r) _ Hn). lia.
Qed.

(** The share class 1 linked to the funds 7 and 8: its row is there twice. *)
Lemma crsp_link_multiplies_by_link_rows_witness :
  let df_crsp := [Crsp.mk 1 (mkdate 2000 Dec 29) None None] in
  length (merge_mflink1 df_crsp [Mflink1.mk 1 (Some 7); Mflink1.mk 1 (Some 8)]) = 2%nat /\
  let one_each := [Mflink1.mk 1 (Some 7); Mflink1.mk 2 (Some 8)] in
  (length (merge_mflink1 df_crsp one_each) <= length df_crsp)%nat.
Proof.
  intros df_crsp. split; [reflexivity|]. intros one_each.
  apply (crsp_link_multiplies_by_link_rows df_crsp one_each).
  simpl. repeat constructor; simpl; intuition discriminate.
Defined.

(** ** One record for a fund and year *)

Lemma NoDup_map_coarser {A B C} (fine : A -> B) (coarse : A -> C) (rows : list A) :
  (forall a b, In a rows -> In b rows -> coarse a = coarse b -> fine a = fine b) ->
  NoDup (map fine rows) -> NoDup (map coarse rows).
Proof.
  induction rows as [|x rows IH]; simpl; intros Hinj Hn; [constructor|].
  inversion Hn as [|? ? Hx Hrows]; subst. constructor.
  - rewrite in_map_iff in *. intros (z & E & Hz). apply Hx. exists z.
    split; [|exact Hz]. apply Hinj; auto.
  - apply IH; auto.
Qed.

Lemma filter_fund_year_length {B} (kb : B -> Z * Z) (w y : Z) (rows : list B) :
  NoDup (map kb rows) ->
  (length (filter (fun b => (fst (kb b) =? w)%Z && (snd (kb b) =? y)%Z) rows) <= 1)%nat.
Proof.
  induction rows as [|x rows IH]; simpl; intros Hn; [lia|].
  inversion Hn as [|? ? Hx Hrows]; subst. specialize (IH Hrows).
  destruct ((fst (kb x) =? w) && (snd (kb x) =? y)) eqn:E; [|exact IH].
  apply andb_true_iff in E. destruct E as [E1 E2]. apply Z.eqb_eq in E1, E2. simpl.
  rewrite filter_none; [simpl; lia|].
  intros z Hz. destruct ((fst (kb z) =? w) && (snd (kb z) =? y)) eqn:E; [|reflexivity].
  apply andb_true_iff in E. destruct E as [E3 E4]. apply Z.eqb_eq in E3, E4.
  exfalso. apply Hx. replace (kb x) with (kb z); [apply in_map; exact Hz|].
  destruct (kb x), (kb z). simpl in *. congruence.
Qed.

(** An inner join on the fund and year of two tables that have each fund
    and year once has each fund and year once. *)
Lemma join_fund_year_NoDup {A B C} (ka : A -> Z * Z) (kb : B -> Z * Z) (kc : C -> Z * Z)
    (pair : A -> B -> C) (left : list A) (right : list B) :
  (forall a b, kc (pair a b) = ka a) ->
  NoDup (map ka left) -> NoDup (map kb right) ->
  NoDup (map kc
    (flat_map (fun a =>
         map (pair a)
           (filter (fun b => (fst (kb b) =? fst (ka a))%Z && (snd (kb b) =? snd (ka a))%Z)
              right))
       left)).
Proof.
  intros Hk Hl Hr. induction left as [|a left IH]; simpl; [constructor|].
  inversion Hl as [|? ? Ha Hleft]; subst. rewrite map_app. apply NoDup_app.
  - pose proof (filter_fund_year_length kb (fst (ka a)) (snd (ka a)) right Hr) as Hlen.
    destruct (filter _ right) as [|b [|b' rest]]; simpl in *;
      [constructor | repeat constructor; simpl; tauto | lia].
  - apply IH. exact Hleft.
  - intros k Hk1 Hk2. apply in_map_iff in Hk1. destruct Hk1 as (c & <- & Hc).
    apply in_map_iff in Hc. destruct Hc as (b & <- & _). rewrite Hk in Hk2.
    apply in_map_iff in Hk2. destruct Hk2 as (c & Ec & Hc).
    apply in_flat_map in Hc. destruct Hc as (a' & Ha' & Hc).
    apply in_map_iff in Hc. destruct Hc as (b' & <- & _). rewrite Hk in Ec.
    apply Ha. rewrite <- Ec. apply in_map. exact Ha'.
Qed.

Lemma df_tna_keys (D : list FundMonth.t) :
  map FundYear.tna (df_tna D)
  = group_keys FundMonth.fund_year (filter (fun r => FundMonth.month r =? 12) D).
Proof.
  unfold df_tna, groupby. rewrite !map_map.
  rewrite <- (map_id (group_keys _ _)) at 2. apply map_ext. intros [w y]. reflexivity.
Qed.

Lemma df_tna_NoDup (D : list FundMonth.t) : NoDup (map FundYear.tna (df_tna D)).
Proof. rewrite df_tna_keys. apply strictly_sorted_NoDup, group_keys_sorted. Qed.

Lemma df_ret_NoDup (D : list FundMonth.t) : NoDup (map FundYear.ret (df_ret D)).
Proof.
  unfold df_ret. rewrite map_map.
  apply (NoDup_map_coarser (fun ir : nat * RetMonth.t => RetMonth.key (snd ir))).
  - intros [i a] [j b] Ha Hb. apply filter_In in Ha, Hb.
    destruct Ha as [_ Ha], Hb as [_ Hb]. simpl in *. apply Z.eqb_eq in Ha, Hb.
    unfold FundYear.ret, RetMonth.key. simpl. congruence.
  - apply NoDup_map_filter. rewrite <- (map_map snd RetMonth.key).
    rewrite reset_index_snd, monthly_mean_keys.
    apply strictly_sorted_NoDup, group_keys_sorted.
Qed.

Lemma df_crsp_clean_NoDup (D : list FundMonth.t) :
  NoDup (map FundYear.crsp_clean (df_crsp_clean D)).
Proof.
  unfold df_crsp_clean.
  apply (join_fund_year_NoDup FundYear.tna FundYear.ret FundYear.crsp_clean
           (fun a b => CrspClean.mk (Tna.wficn a) (Tna.year a) (Tna.crsp_tna a) (Ret.yret b))).
  - reflexivity.
  - apply df_tna_NoDup.
  - apply df_ret_NoDup.
Qed.

Lemma df_eq_NoDup (reports : list Report.t) : NoDup (map FundYear.equity (df_eq reports)).
Proof.
  unfold df_eq, groupby. rewrite !map_map.
  rewrite (map_ext _ (fun k : Z * Z => k)) by (intros [w y]; reflexivity).
  rewrite map_id. apply strictly_sorted_NoDup, group_keys_sorted.
Qed.

Lemma df_combo_NoDup (cc : list CrspClean.t) (eq : list Equity.t) :
  NoDup (map FundYear.crsp_clean cc) -> NoDup (map FundYear.equity eq) ->
  NoDup (map FundYear.combo (df_combo cc eq)).
Proof.
  intros Hc He. unfold df_combo.
  eapply Permutation_NoDup;
    [apply Permutation_map, Permutation_sym, sort_values_perm|].
  apply (join_fund_year_NoDup FundYear.crsp_clean FundYear.equity FundYear.combo
           (fun a b => Combo.mk (CrspClean.wficn a) (CrspClean.year a)
                         (CrspClean.crsp_tna a) (CrspClean.yret a)
                         (Equity.assets b) (Equity.useq_tna_k b)));
    [reflexivity | exact Hc | exact He].
Qed.

Lemma joined_NoDup (df_crsp : list Crsp.t) (df_mflink1 : list Mflink1.t)
    (df_s12 : list S12.t) (df_mflink2 : list Mflink2.t) :
  NoDup (map FundYear.combo (joined df_crsp df_mflink1 df_s12 df_mflink2)).
Proof.
  unfold joined, holdings. apply df_combo_NoDup;
    [apply df_crsp_clean_NoDup | apply df_eq_NoDup].
Qed.

(** What the three filters keep of a property of the key column, when
    dropping rows keeps the property. *)
Lemma universe_filters_inv (df : list Combo.t) (out : list ComboE.t) :
  universe_filters df = Ok out ->
  exists t e, add_tna_ratio (filter_tna df) = Ok t /\
              add_eq_ratios (filter_tna_ratio t) = Ok e /\ out = filter_eq_ratio e.
Proof.
  unfold universe_filters.
  destruct (add_tna_ratio (filter_tna df)) as [t|]; simpl; [|discriminate].
  destruct (add_eq_ratios (filter_tna_ratio t)) as [e|] eqn:Ee; simpl; [|discriminate].
  intros E. injection E as <-. exists t, e. repeat split. exact Ee.
Qed.

Lemma universe_filters_keys {K} (P : list K -> Prop) (k : Combo.t -> K)
    (df : list Combo.t) (out : list ComboE.t) :
  (forall A (f : A -> K) (keep : A -> bool) (rows : list A),
     P (map f rows) -> P (map f (filter keep rows))) ->
  universe_filters df = Ok out ->
  P (map k df) -> P (map (fun r => k (ComboE.base r)) out).
Proof.
  intros Hfilter Eu Hdf.
  destruct (universe_filters_inv _ _ Eu) as (t & e & Et & Ee & ->).
  destruct (add_tna_ratio_rows _ _ Et) as [Ht _].
  destruct (add_eq_ratios_rows _ _ Ee) as [He _].
  unfold filter_eq_ratio. apply Hfilter.
  unfold ComboE.base. rewrite <- (map_map ComboE.row (fun r => k (ComboT.row r))).
  rewrite He. unfold filter_tna_ratio. apply Hfilter.
  rewrite <- (map_map ComboT.row k), Ht. unfold filter_tna. apply Hfilter. exact Hdf.
Qed.

(** X5. The joined table and the last table have at most one record for a
    fund and year. *)
Theorem one_record_per_fund_year
    (df_crsp : list Crsp.t) (df_mflink1 : list Mflink1.t)
    (df_s12 : list S12.t) (df_mflink2 : list Mflink2.t) :
  NoDup (map FundYear.combo (joined df_crsp df_mflink1 df_s12 df_mflink2)) /\
  exists out,
    universe df_crsp df_mflink1 df_s12 df_mflink2 = Ok out /\
    NoDup (map (fun r => FundYear.combo (ComboE.base r)) out).
Proof.
  split; [apply joined_NoDup|].
  destruct (universe_filters_total (joined df_crsp df_mflink1 df_s12 df_mflink2))
    as (t & e & _ & _ & Eu); [intros r; apply joined_assets|].
  exists (filter_eq_ratio e). split; [exact Eu|].
  apply (universe_filters_keys (@NoDup (Z * Z)) FundYear.combo _ _
           (fun A f keep rows => NoDup_map_filter f keep rows) Eu).
  apply joined_NoDup.
Qed.

Lemma df_ret_december (D : list FundMonth.t) (r : Ret.t) :
  In r (df_ret D) -> In 12 (months_of D (Ret.wficn r) (Ret.year r)).
Proof.
  unfold df_ret. rewrite in_map_iff.
  intros ([i rm] & <- & Hf). apply filter_In in Hf. destruct Hf as [Hin Hdec].
  simpl in *. apply Z.eqb_eq in Hdec.
  assert (Hrm : In rm (monthly_mean D)) by (apply reset_index_In; eauto).
  apply monthly_mean_In in Hrm. destruct Hrm as [Hk _].
  apply months_of_In. apply group_keys_In in Hk. unfold RetMonth.key in Hk.
  rewrite Hdec in Hk. exact Hk.
Qed.

Lemma join_fund_year_all {A B C} (ka : A -> Z * Z) (kc : C -> Z * Z)
    (pair : A -> B -> C) (same : A -> B -> bool) (left : list A) (right : list B) :
  (forall a b, kc (pair a b) = ka a) ->
  (forall a, In a left -> length (filter (same a) right) = 1%nat) ->
  map kc (flat_map (fun a => map (pair a) (filter (same a) right)) left) = map ka left.
Proof.
  intros Hk Hone. induction left as [|a left IH]; simpl; [reflexivity|].
  rewrite map_app, IH by (intros; apply Hone; right; assumption).
  specialize (Hone a (or_introl eq_refl)).
  destruct (filter (same a) right) as [|b [|b' rest]]; try discriminate.
  simpl. rewrite Hk. reflexivity.
Qed.

(** X6. The yearly returns and the year-end TNA cover the same funds and
    years, the ones with a December row, so their inner join loses none:
    [df_crsp_clean] has the funds and years of [df_tna], each once and in
    the same order. *)
Theorem returns_and_tna_cover_the_same_fund_years (D : list FundMonth.t) :
  (forall w y, In (w, y) (map FundYear.ret (df_ret D)) <->
               In (w, y) (map FundYear.tna (df_tna D))) /\
  (forall w y, In (w, y) (map FundYear.tna (df_tna D)) <->
               exists x, In x D /\ FundMonth.wficn x = w /\ FundMonth.year x = y
                         /\ FundMonth.month x = 12) /\
  map FundYear.crsp_clean (df_crsp_clean D) = map FundYear.tna (df_tna D) /\
  length (df_crsp_clean D) = length (df_tna D) /\
  length (df_ret D) = length (df_tna D).
Proof.
  assert (Hret : forall w y, In (w, y) (map FundYear.ret (df_ret D))
                             <-> In 12 (months_of D w y)).
  { intros w y. rewrite in_map_iff. split.
    - intros (r & E & Hr). injection E as <- <-. apply df_ret_december. exact Hr.
    - intros H12. destruct (df_ret_exists D w y H12) as (r & Hr & <- & <-).
      exists r. auto. }
  assert (Htna : forall w y, In (w, y) (map FundYear.tna (df_tna D))
                             <-> In 12 (months_of D w y)).
  { intros w y. rewrite <- december_tna_months, in_map_iff. split.
    - intros (t & E & Ht). injection E as <- <-. apply df_tna_In. exact Ht.
    - intros Hne. destruct (df_tna_exists D w y Hne) as (t & Ht & <- & <-).
      exists t. auto. }
  assert (Hkeys : map FundYear.crsp_clean (df_crsp_clean D) = map FundYear.tna (df_tna D)).
  { unfold df_crsp_clean.
    apply (join_fund_year_all FundYear.tna FundYear.crsp_clean
             (fun a b => CrspClean.mk (Tna.wficn a) (Tna.year a) (Tna.crsp_tna a)
                           (Ret.yret b))); [reflexivity|].
    intros a Ha.
    pose proof (filter_fund_year_length FundYear.ret (Tna.wficn a) (Tna.year a)
                  (df_ret D) (df_ret_NoDup D)) as Hle.
    simpl in Hle.
    assert (Hin : In (Tna.wficn a, Tna.year a) (map FundYear.ret (df_ret D))).
    { apply Hret, Htna. apply (in_map FundYear.tna) in Ha. exact Ha. }
    apply in_map_iff in Hin. destruct Hin as (b & E & Hb). injection E as Ew Ey.
    assert (Hb' : In b (filter (fun b => (Ret.wficn b =? Tna.wficn a)
                                         && (Ret.year b =? Tna.year a)) (df_ret D))).
    { apply filter_In. split; [exact Hb|]. rewrite Ew, Ey, !Z.eqb_refl. reflexivity. }
    destruct (filter _ (df_ret D)) as [|b0 [|b1 rest]]; simpl in *;
      [contradiction | reflexivity | lia]. }
  split; [intros w y; rewrite Hret, Htna; reflexivity|].
  split.
  { intros w y. rewrite Htna, months_of_In. split.
    - intros (x & Hx & E). exists x. unfold FundMonth.key in E.
      injection E as E1 E2 E3. auto.
    - intros (x & Hx & E1 & E2 & E3). exists x. unfold FundMonth.key.
      split; [exact Hx | congruence]. }
  split; [exact Hkeys|]. split.
  - rewrite <- (length_map FundYear.crsp_clean), Hkeys, length_map. reflexivity.
  - rewrite <- (length_map FundYear.ret), <- (length_map FundYear.tna (df_tna D)).
    apply Permutation_length, NoDup_Permutation;
      [apply df_ret_NoDup | apply df_tna_NoDup|].
    intros [w y]. rewrite Hret, Htna. reflexivity.
Qed.

(** ** The order of the last table *)

Lemma sorted_map_filter {A K} (R : K -> K -> Prop) (f : A -> K) (keep : A -> bool)
    (rows : list A) :
  StronglySorted R (map f rows) -> StronglySorted R (map f (filter keep rows)).
Proof.
  induction rows as [|x rows IH]; simpl; intros Hs; [constructor|].
  inversion Hs as [|? ? Hrows Hx]; subst. specialize (IH Hrows).
  destruct (keep x); [|exact IH]. simpl. constructor; [exact IH|].
  rewrite Forall_forall in *. intros k Hk. apply Hx.
  apply in_map_iff in Hk. destruct Hk as (z & <- & Hz). apply in_map.
  apply filter_In in Hz. tauto.
Qed.

Lemma joined_sorted (df_crsp : list Crsp.t) (df_mflink1 : list Mflink1.t)
    (df_s12 : list S12.t) (df_mflink2 : list Mflink2.t) :
  StronglySorted Z.le (map Combo.year (joined df_crsp df_mflink1 df_s12 df_mflink2)).
Proof.
  unfold joined, df_combo.
  match goal with |- context [sort_values Combo.year ?l] =>
    pose proof (sort_values_sorted Combo.year l) as Hs;
    induction Hs as [|x rows _ IH Hx]; simpl; constructor; [exact IH|]
  end.
  rewrite Forall_forall in *. intros y Hy. apply in_map_iff in Hy.
  destruct Hy as (z & <- & Hz). specialize (Hx z Hz).
  unfold le_row, leb_key in Hx. simpl in Hx.
  destruct (Combo.year x ?= Combo.year z) eqn:E; try discriminate.
  - apply Z.compare_eq in E. lia.
  - apply Z.lt_le_incl. exact E.
Qed.

(** X8. The joined table is in increasing order of year, and the filters
    keep that order: the last table is in increasing order of year too. *)
Theorem tables_are_sorted_by_year
    (df_crsp : list Crsp.t) (df_mflink1 : list Mflink1.t)
    (df_s12 : list S12.t) (df_mflink2 : list Mflink2.t) :
  StronglySorted Z.le (map Combo.year (joined df_crsp df_mflink1 df_s12 df_mflink2)) /\
  exists out,
    universe df_crsp df_mflink1 df_s12 df_mflink2 = Ok out /\
    StronglySorted Z.le (map (fun r => Combo.year (ComboE.base r)) out).
Proof.
  split; [apply joined_sorted|].
  destruct (universe_filters_total (joined df_crsp df_mflink1 df_s12 df_mflink2))
    as (t & e & _ & _ & Eu); [intros r; apply joined_assets|].
  exists (filter_eq_ratio e). split; [exact Eu|].
  apply (universe_filters_keys (StronglySorted Z.le) Combo.year _ _
           (fun A f keep rows => sorted_map_filter Z.le f keep rows) Eu).
  apply joined_sorted.
Qed.

(** ** The cumulative product month by month *)

Lemma monthly_mean_fund_year_rows (D : list FundMonth.t) (w y : Z) :
  filter (fun x => eqb_key (w, y) (RetMonth.fund_year x)) (monthly_mean D)
  = map (fun m => RetMonth.mk w y m (mean (month_returns D w y m))) (months_of D w y).
Proof.
  rewrite monthly_mean_unfold, filter_map_swap. unfold months_of.
  rewrite !map_map. apply map_ext_in.
  intros [w' [y' m']] Hk. apply filter_In in Hk. destruct Hk as [_ E].
  simpl in E. apply eqb_key_true in E. injection E as <- <-. reflexivity.
Qed.

(** X7. Every month's [cumret], not only December's, is the product of
    one plus the monthly mean return over the months of the same fund and
    year up to and including that month. *)
Theorem cumret_compounds_up_to_the_month
    (D : list FundMonth.t) (i : nat) (r : RetMonth.t) :
  In (i, r) (reset_index (monthly_mean D)) ->
  exists q,
    loc i (cumret (reset_index (monthly_mean D))) = Some q /\
    q == Qprod (map (fun m => 1 + mean (month_returns D (RetMonth.wficn r)
                                          (RetMonth.year r) m))%Q
                  (filter (fun m => m <=? RetMonth.month r)
                     (months_of D (RetMonth.wficn r) (RetMonth.year r)))).
Proof.
  intros Hin. unfold cumret.
  set (IM := reset_index (monthly_mean D)) in *.
  set (S := sort_values (fun ir => RetMonth.year_month (snd ir)) IM).
  set (same := fun x => eqb_key (RetMonth.fund_year r) (RetMonth.fund_year x)).
  set (upto := fun x => same x && (RetMonth.month x <=? RetMonth.month r)).
  assert (HP : Permutation S IM) by apply sort_values_perm.
  assert (HS : In (i, r) S) by (apply sort_values_In; exact Hin).
  destruct (in_split _ _ HS) as (pre & post & ES).
  assert (Hlab : NoDup (map fst S)).
  { eapply Permutation_NoDup; [apply Permutation_map, Permutation_sym, HP|].
    unfold IM. rewrite reset_index_fst. apply seq_NoDup. }
  assert (Hkeys : NoDup (map (fun ir => RetMonth.key (snd ir)) S)).
  { eapply Permutation_NoDup; [apply Permutation_map, Permutation_sym, HP|].
    rewrite <- (map_map snd RetMonth.key). unfold IM.
    rewrite reset_index_snd, monthly_mean_keys.
    apply strictly_sorted_NoDup, group_keys_sorted. }
  assert (Hsorted : StronglySorted (le_row (fun ir => RetMonth.year_month (snd ir))) S)
    by apply sort_values_sorted.
  rewrite ES in Hlab, Hkeys, Hsorted.
  pose proof (sorted_app_before _ _ _ _ Hsorted) as Hpre.
  pose proof (sorted_app_inv _ _ _ _ Hsorted) as Hpost.
  rewrite map_app in Hlab, Hkeys. simpl in Hlab, Hkeys.
  apply NoDup_remove_2 in Hlab, Hkeys.
  destruct (group_cumprod_loc pre post i r []) as (v & Hv & Ev).
  { intros Hi. apply Hlab, in_or_app. left. exact Hi. }
  rewrite ES. exists v. split; [exact Hv|]. rewrite Ev. simpl running.
  fold same.
  transitivity (Qprod (map RetMonth.mult (filter upto (map snd S)))).
  - rewrite ES, map_app. simpl map. rewrite filter_app. simpl filter.
    assert (Hr : upto r = true).
    { unfold upto, same. rewrite eqb_key_refl, Z.leb_refl. reflexivity. }
    rewrite Hr.
    rewrite (filter_ext_in upto same (map snd pre)).
    2:{ intros x Hx. apply in_map_iff in Hx. destruct Hx as ([j x'] & <- & Hx). simpl.
        unfold upto. destruct (same x') eqn:E; [|reflexivity]. simpl.
        unfold same in E. apply eqb_key_true in E. unfold RetMonth.fund_year in E.
        injection E as Ew Ey. rewrite Forall_forall in Hpre. specialize (Hpre _ Hx).
        unfold le_row, RetMonth.year_month in Hpre. simpl in Hpre.
        rewrite Ey in Hpre. apply leb_year_month in Hpre. apply Z.leb_le. exact Hpre. }
    rewrite (filter_none upto (map snd post)).
    + rewrite map_app, Qprod_app. simpl. ring.
    + intros x Hx. apply in_map_iff in Hx. destruct Hx as ([j x'] & <- & Hx). simpl.
      unfold upto. destruct (same x') eqn:E; [|reflexivity]. simpl.
      apply Z.leb_gt. unfold same in E. apply eqb_key_true in E.
      unfold RetMonth.fund_year in E. injection E as Ew Ey.
      rewrite Forall_forall in Hpost. specialize (Hpost _ Hx).
      unfold le_row, RetMonth.year_month in Hpost. simpl in Hpost.
      rewrite <- Ey in Hpost. apply leb_year_month in Hpost.
      assert (RetMonth.month x' <> RetMonth.month r); [|lia].
      intros Em. apply Hkeys, in_or_app. right. apply in_map_iff. exists (j, x').
      split; [|exact Hx]. unfold RetMonth.key. simpl. congruence.
  - transitivity (Qprod (map RetMonth.mult (filter upto (monthly_mean D)))).
    { apply Qprod_perm, Permutation_map, filter_perm.
      rewrite <- (reset_index_snd (monthly_mean D)). apply Permutation_map, HP. }
    unfold upto. rewrite <- filter_filter_and. unfold same, RetMonth.fund_year at 1.
    rewrite monthly_mean_fund_year_rows, filter_map_swap, map_map. simpl.
    reflexivity.
Qed.

(** On the small universe the February row of fund 7 carries the product
    of January and February. *)
Lemma cumret_compounds_up_to_the_month_witness :
  let D := clean_crsp sample_crsp sample_mflink1 in
  let feb := RetMonth.mk 7 2000 2 (mean [(-2 # 100)%Q]) in
  exists q,
    loc 1 (cumret (reset_index (monthly_mean D))) = Some q /\
    q == (1 + (1 # 200)) * (1 + (-2 # 100)).
Proof.
  intros D feb.
  destruct (cumret_compounds_up_to_the_month D 1 feb) as (q & Hq & Eq).
  { vm_compute. auto. }
  exists q. split; [exact Hq|]. rewrite Eq. vm_compute. reflexivity.
Defined.

(** ** Counts by year *)

Lemma eqb_key_Z (x y : Z) : eqb_key x y = (x =? y).
Proof.
  destruct (x =? y) eqn:E.
  - apply Z.eqb_eq in E. subst. apply eqb_key_refl.
  - destruct (eqb_key x y) eqn:E'; [|reflexivity].
    apply eqb_key_true in E'. subst. rewrite Z.eqb_refl in E. discriminate.
Qed.

Lemma year_counts_unfold {A} (year : A -> Z) (df : list A) :
  year_counts year df
  = map (fun y => (y, length (filter (fun r => year r =? y) df))) (group_keys year df).
Proof.
  unfold year_counts, groupby, group. rewrite map_map. apply map_ext. intros y. simpl.
  f_equal. f_equal. apply filter_ext. intros r. apply eqb_key_Z.
Qed.

Lemma list_sum_map_add {A} (f g : A -> nat) (l : list A) :
  list_sum (map (fun k => f k + g k)%nat l) = (list_sum (map f l) + list_sum (map g l))%nat.
Proof. induction l as [|k l IH]; simpl; [reflexivity|]. rewrite IH. lia. Qed.

Lemma list_sum_indicator (y : Z) (years : list Z) :
  NoDup years -> In y years ->
  list_sum (map (fun k => if y =? k then 1%nat else 0%nat) years) = 1%nat.
Proof.
  induction years as [|k years IH]; simpl; intros Hn Hy; [contradiction|].
  inversion Hn as [|? ? Hk Hyears]; subst.
  destruct (y =? k) eqn:E.
  - apply Z.eqb_eq in E. subst k.
    assert (H0 : list_sum (map (fun k => if y =? k then 1%nat else 0%nat) years) = 0%nat).
    { clear IH Hn Hy Hyears. induction years as [|k years IH]; simpl; [reflexivity|].
      destruct (y =? k) eqn:E.
      - apply Z.eqb_eq in E. subst k. exfalso. apply Hk. left. reflexivity.
      - apply IH. intros H. apply Hk. right. exact H. }
    rewrite H0. reflexivity.
  - destruct Hy as [->|Hy]; [rewrite Z.eqb_refl in E; discriminate|].
    rewrite IH; auto.
Qed.

Lemma counts_sum {A} (year : A -> Z) (years : list Z) (df : list A) :
  NoDup years -> (forall r, In r df -> In (year r) years) ->
  list_sum (map (fun y => length (filter (fun r => year r =? y) df)) years) = length df.
Proof.
  intros Hn. induction df as [|x df IH]; intros Hin; simpl.
  - clear. induction years as [|k years IH]; simpl; [reflexivity | exact IH].
  - rewrite (map_ext _ (fun y => ((if (year x =? y)%Z then 1 else 0)
                                  + length (filter (fun r => (year r =? y)%Z) df))%nat)).
    2:{ intros y. destruct (year x =? y); reflexivity. }
    rewrite list_sum_map_add, list_sum_indicator, IH.
    + reflexivity.
    + intros r Hr. apply Hin. right. exact Hr.
    + exact Hn.
    + apply Hin. left. reflexivity.
Qed.

Lemma count_of_year_counts {A} (year : A -> Z) (df : list A) (y : Z) :
  count_of y (year_counts year df) = length (filter (fun r => year r =? y) df).
Proof.
  rewrite year_counts_unfold. unfold count_of.
  assert (Hfind : forall years,
    find (fun c : Z * nat => fst c =? y)
      (map (fun y => (y, length (filter (fun r => year r =? y) df))) years)
    = if existsb (fun k => k =? y) years
      then Some (y, length (filter (fun r => year r =? y) df)) else None).
  { induction years as [|k years IH]; simpl; [reflexivity|].
    destruct (k =? y) eqn:E; simpl; [|exact IH].
    apply Z.eqb_eq in E. subst k. reflexivity. }
  rewrite Hfind. destruct (existsb _ (group_keys year df)) eqn:E; [reflexivity|].
  simpl. symmetry. rewrite filter_none; [reflexivity|].
  intros r Hr. apply Z.eqb_neq. intros Ey.
  assert (Hk : In (year r) (group_keys year df)) by (apply group_keys_In; eauto).
  rewrite Ey in Hk.
  assert (existsb (fun k => k =? y) (group_keys year df) = true).
  { apply existsb_exists. exists y. split; [exact Hk | apply Z.eqb_refl]. }
  congruence.
Qed.

(** X9. The table of counts by year has one line for each year of the
    frame, in increasing order of year, with the number of rows of that
    year, which is never zero; the counts add up to the number of rows. *)
Theorem year_counts_partition {A} (year : A -> Z) (df : list A) :
  StronglySorted Z.lt (map fst (year_counts year df)) /\
  (forall y n, In (y, n) (year_counts year df) <->
     n = length (filter (fun r => year r =? y) df) /\ (0 < n)%nat) /\
  list_sum (map snd (year_counts year df)) = length df.
Proof.
  rewrite year_counts_unfold, !map_map. simpl. split; [|split].
  - rewrite map_id. pose proof (group_keys_sorted year df) as Hs.
    induction Hs as [|k ks _ IH Hk]; constructor; [exact IH|].
    eapply Forall_impl; [|exact Hk]. intros a Ha. exact Ha.
  - intros y n. rewrite in_map_iff. split.
    + intros (k & E & Hk). injection E as -> <-. split; [reflexivity|].
      apply group_keys_In in Hk. destruct Hk as (r & Hr & Er).
      assert (Hin : In r (filter (fun r => year r =? y) df)).
      { apply filter_In. split; [exact Hr | apply Z.eqb_eq; exact Er]. }
      destruct (filter _ df); [contradiction | simpl; lia].
    + intros [-> Hpos]. exists y. split; [reflexivity|]. apply group_keys_In.
      destruct (filter (fun r => year r =? y) df) as [|r rest] eqn:E;
        [simpl in Hpos; lia|].
      assert (Hr : In r (filter (fun r => year r =? y) df))
        by (rewrite E; left; reflexivity).
      apply filter_In in Hr. destruct Hr as [Hr Ey]. apply Z.eqb_eq in Ey. eauto.
  - apply counts_sum.
    + apply strictly_sorted_NoDup, group_keys_sorted.
    + intros r Hr. apply group_keys_In. eauto.
Qed.

Lemma filter_count_le {A} (year : A -> Z) (keep : A -> bool) (df : list A) (y : Z) :
  (count_of y (year_counts year (filter keep df)) <= count_of y (year_counts year df))%nat.
Proof.
  rewrite !count_of_year_counts, filter_filter_and.
  rewrite (filter_ext _ (fun r => (year r =? y) && keep r))
    by (intros r; apply andb_comm).
  rewrite <- filter_filter_and. apply filter_length_le.
Qed.

(** X10. The four tables of counts that the notebook shows (before the
    filters and after each one) go down year by year: no filter raises the
    count of any year, and the columns added between the filters leave
    the counts as they are. *)
Theorem year_counts_go_down
    (df : list Combo.t) (t : list ComboT.t) (e : list ComboE.t) (y : Z) :
  add_tna_ratio (filter_tna df) = Ok t ->
  add_eq_ratios (filter_tna_ratio t) = Ok e ->
  let before := year_counts Combo.year df in
  let after_tna := year_counts Combo.year (filter_tna df) in
  let after_ratio :=
    year_counts (fun r => Combo.year (ComboT.row r)) (filter_tna_ratio t) in
  let after_equity :=
    year_counts (fun r => Combo.year (ComboE.base r)) (filter_eq_ratio e) in
  year_counts (fun r => Combo.year (ComboT.row r)) t = after_tna /\
  year_counts (fun r => Combo.year (ComboE.base r)) e = after_ratio /\
  (count_of y after_equity <= count_of y after_ratio)%nat /\
  (count_of y after_ratio <= count_of y after_tna)%nat /\
  (count_of y after_tna <= count_of y before)%nat.
Proof.
  intros Et Ee before after_tna after_ratio after_equity.
  destruct (add_tna_ratio_rows _ _ Et) as [Ht _].
  destruct (add_eq_ratios_rows _ _ Ee) as [He _].
  assert (Hmap : forall A B (f : A -> B) (year : B -> Z) (rows : list A),
            year_counts (fun r => year (f r)) rows = year_counts year (map f rows)).
  { intros A B f year rows. rewrite !year_counts_unfold.
    unfold group_keys. rewrite map_map. apply map_ext. intros k.
    f_equal. rewrite filter_map_swap, length_map. reflexivity. }
  assert (E1 : year_counts (fun r => Combo.year (ComboT.row r)) t = after_tna).
  { rewrite Hmap, Ht. reflexivity. }
  assert (E2 : year_counts (fun r => Combo.year (ComboE.base r)) e = after_ratio).
  { unfold ComboE.base. rewrite (Hmap _ _ ComboE.row (fun r => Combo.year (ComboT.row r))).
    rewrite He. reflexivity. }
  split; [exact E1|]. split; [exact E2|]. split; [|split].
  - unfold after_equity. rewrite <- E2. apply filter_count_le.
  - unfold after_ratio. rewrite <- E1. apply filter_count_le.
  - apply filter_count_le.
Qed.

(** Three joined records, two of 2000 and one of 2001: the counts go from
    2 and 1 to 1 and 1, then to 1 for 2001 alone. *)
Lemma year_counts_go_down_witness :
  let df := [Combo.mk 1 2000 (1 # 2) None None (Some 400%Q);
             Combo.mk 3 2000 10 None (Some 100%Q) (Some 9000%Q);
             Combo.mk 2 2001 10 None (Some 1000%Q) (Some 9000%Q)] in
  exists t e,
    add_tna_ratio (filter_tna df) = Ok t /\
    add_eq_ratios (filter_tna_ratio t) = Ok e /\
    year_counts Combo.year df = [(2000, 2%nat); (2001, 1%nat)] /\
    year_counts (fun r => Combo.year (ComboE.base r)) (filter_eq_ratio e)
    = [(2001, 1%nat)] /\
    (count_of 2000 (year_counts (fun r => Combo.year (ComboE.base r)) (filter_eq_ratio e))
     <= count_of 2000
          (year_counts (fun r => Combo.year (ComboT.row r)) (filter_tna_ratio t)))%nat.
Proof.
  intros df. eexists. eexists.
  split; [vm_compute; reflexivity|]. split; [vm_compute; reflexivity|].
  split; [reflexivity|]. split; [reflexivity|].
  eapply (year_counts_go_down df); vm_compute; reflexivity.
Defined.

(** ** Records without assets and missing TNA *)

Local Open Scope Q_scope.

(** X11. A joined record without holdings assets gets the neutral value 1
    for [tna_ratio] and for [eq_ratio_2], so it passes both ratio filters
    whatever its equity holdings: it is in the last table exactly when its
    year-end TNA is above 1. *)
Theorem records_without_assets_pass_the_ratio_filters
    (df : list Combo.t) (out : list ComboE.t) (r : Combo.t) :
  universe_filters df = Ok out ->
  In r df -> Combo.assets r = None ->
  (1 < Combo.crsp_tna r <->
   exists e, In e out /\ ComboE.base e = r /\
             ComboT.tna_ratio (ComboE.row e) = Some 1 /\ ComboE.eq_ratio_2 e = Some 1).
Proof.
  intros Eu Hr Ha.
  destruct (universe_filters_inv _ _ Eu) as (t & e & Et & Ee & ->). split.
  - intros Htna.
    assert (Hr' : In r (filter_tna df)).
    { apply filter_In. split; [exact Hr | apply Qltb_lt; exact Htna]. }
    destruct (add_tna_ratio_has _ _ _ Et Hr') as (v & Ev & Hv).
    rewrite tna_ratio_value, Ha in Ev by (rewrite Ha; exact I). injection Ev as <-.
    assert (Hv' : In (ComboT.mk r (Some 1)) (filter_tna_ratio t)).
    { apply filter_In. split; [exact Hv | reflexivity]. }
    destruct (add_eq_ratios_has _ _ _ Ee Hv') as (e1 & e2 & _ & E2 & He).
    simpl in E2. rewrite eq_ratio_2_value, Ha in E2 by (rewrite Ha; exact I).
    injection E2 as <-.
    exists (ComboE.mk (ComboT.mk r (Some 1)) e1 (Some 1)). split; [|auto].
    apply filter_In. split; [exact He|]. unfold eq_ratio_ok. simpl.
    apply orb_true_r.
  - intros (x & Hx & <- & _). apply filter_In in Hx. destruct Hx as [Hx _].
    destruct (add_eq_ratios_rows _ _ Ee) as [_ Hrows].
    destruct (Hrows x Hx) as (Hrow & _). apply filter_In in Hrow.
    destruct Hrow as [Hrow _].
    destruct (add_tna_ratio_rows _ _ Et) as [_ Hrows'].
    destruct (Hrows' _ Hrow) as [Hb _]. apply filter_In in Hb.
    apply Qltb_lt. apply Hb.
Qed.

(** A record without assets whose equity holdings are three times its
    TNA: it is kept. *)
Lemma records_without_assets_pass_the_ratio_filters_witness :
  let r := Combo.mk 7 2000 2 None None (Some 6000) in
  exists out,
    universe_filters [r] = Ok out /\
    exists e, In e out /\ ComboE.base e = r /\
              ComboT.tna_ratio (ComboE.row e) = Some 1 /\ ComboE.eq_ratio_2 e = Some 1.
Proof.
  intros r. eexists. split; [vm_compute; reflexivity|].
  apply (proj1 (records_without_assets_pass_the_ratio_filters [r] _ r
                  eq_refl (or_introl eq_refl) eq_refl)).
  reflexivity.
Defined.

Lemma sum_skipna_all_missing (col : list float) :
  (forall v, In v col -> v = None) -> sum_skipna col = 0.
Proof.
  induction col as [|v col IH]; simpl; intros Hall; [reflexivity|].
  rewrite (Hall v (or_introl eq_refl)). apply IH. intros u Hu. apply Hall. right. exact Hu.
Qed.

(** X15. Missing TNA count for nothing in the year-end sum: a fund and
    year whose December TNA are all missing has year-end TNA 0 and so has
    no record in the last table. *)
Theorem fund_year_without_december_tna_is_dropped
    (df_crsp : list Crsp.t) (df_mflink1 : list Mflink1.t)
    (df_s12 : list S12.t) (df_mflink2 : list Mflink2.t) (w y : Z) :
  let D := clean_crsp df_crsp df_mflink1 in
  (forall v, In v (december_tna D w y) -> v = None) ->
  (forall t, In t (df_tna D) -> Tna.wficn t = w -> Tna.year t = y -> Tna.crsp_tna t = 0) /\
  exists out,
    universe df_crsp df_mflink1 df_s12 df_mflink2 = Ok out /\
    forall e, In e out -> FundYear.combo (ComboE.base e) <> (w, y).
Proof.
  intros D Hall.
  assert (Htna : forall t, In t (df_tna D) -> Tna.wficn t = w -> Tna.year t = y ->
                           Tna.crsp_tna t = 0).
  { intros t Ht <- <-. destruct (df_tna_In D t Ht) as [_ ->].
    apply sum_skipna_all_missing. exact Hall. }
  split; [exact Htna|].
  set (df := joined df_crsp df_mflink1 df_s12 df_mflink2).
  destruct (universe_filters_total df) as (t & e & Et & Ee & Eu);
    [intros r; apply joined_assets|].
  exists (filter_eq_ratio e). split; [exact Eu|].
  intros x Hx Ek. apply filter_In in Hx. destruct Hx as [Hx _].
  destruct (add_eq_ratios_rows _ _ Ee) as [_ Hrows].
  destruct (Hrows x Hx) as (Hrow & _).
  apply filter_In in Hrow. destruct Hrow as [Hrow _].
  destruct (add_tna_ratio_rows _ _ Et) as [_ Hrows'].
  destruct (Hrows' _ Hrow) as [Hb _]. fold (ComboE.base x) in Hb.
  apply filter_In in Hb. destruct Hb as [Hb Hgt]. apply Qltb_lt in Hgt.
  unfold df, joined, df_combo in Hb. rewrite sort_values_In, in_flat_map in Hb.
  destruct Hb as (a & Ha & Hc). apply in_map_iff in Hc. destruct Hc as (b & Ec & _).
  apply df_crsp_clean_In in Ha. destruct Ha as (t0 & r0 & Ht0 & _ & _ & _ & ->).
  rewrite <- Ec in Ek, Hgt. unfold FundYear.combo in Ek. simpl in Ek, Hgt.
  injection Ek as Ew Ey. rewrite (Htna t0 Ht0 Ew Ey) in Hgt. lra.
Qed.

(** Fund 7 has one share class, without TNA in December 2000. *)
Lemma fund_year_without_december_tna_is_dropped_witness :
  let df_crsp := [Crsp.mk 1 (mkdate 2000 Dec 29) (Some (1 # 100)) None] in
  let df_mflink1 := [Mflink1.mk 1 (Some 7%Z)] in
  let df_s12 := [S12.mk 5 (mkdate 2000 Dec 31) None (Some 2000)] in
  let df_mflink2 := [Mflink2.mk (mkdate 2000 Dec 31) 5 (Some 7%Z)] in
  length (joined df_crsp df_mflink1 df_s12 df_mflink2) = 1%nat /\
  exists out,
    universe df_crsp df_mflink1 df_s12 df_mflink2 = Ok out /\
    forall e, In e out -> FundYear.combo (ComboE.base e) <> (7%Z, 2000%Z).
Proof.
  intros df_crsp df_mflink1 df_s12 df_mflink2. split; [reflexivity|].
  apply (fund_year_without_december_tna_is_dropped df_crsp df_mflink1 df_s12 df_mflink2).
  intros v [<-|[]]. reflexivity.
Defined.

(** ** Which report a fund-year takes its holdings from *)

Local Open Scope Z_scope.

Section ProjectedOrder.
Context {K P : Type} `{Ord K} `{OrdLaws P}.
Variable proj : K -> P.
Hypothesis proj_lt : forall k h, cmp k h = Lt -> leb_key (proj k) (proj h) = true.
Hypothesis proj_gt : forall k h, cmp k h = Gt -> leb_key (proj h) (proj k) = true.

Lemma insert_key_In_weak (k x : K) (keys : list K) :
  In k (insert_key x keys) -> k = x \/ In k keys.
Proof.
  induction keys as [|h keys IH]; simpl.
  - intuition.
  - destruct (cmp x h); simpl; intuition.
Qed.

Lemma insert_key_proj_sorted (x : K) (keys : list K) :
  StronglySorted (fun a b => leb_key (proj a) (proj b) = true) keys ->
  StronglySorted (fun a b => leb_key (proj a) (proj b) = true) (insert_key x keys).
Proof.
  induction 1 as [|h keys Hs IH Hh]; simpl.
  - constructor; constructor.
  - destruct (cmp x h) eqn:E.
    + constructor; assumption.
    + constructor; [constructor; assumption|].
      constructor; [apply proj_lt; exact E|].
      eapply Forall_impl; [|exact Hh].
      intros a Ha. eapply leb_key_trans; [apply proj_lt; exact E | exact Ha].
    + constructor; [exact IH|].
      apply Forall_forall. intros a Ha. apply insert_key_In_weak in Ha.
      destruct Ha as [->|Ha].
      * apply proj_gt. exact E.
      * rewrite Forall_forall in Hh. auto.
Qed.

Lemma group_keys_proj_sorted {A} (key : A -> K) (rows : list A) :
  StronglySorted (fun a b => leb_key (proj a) (proj b) = true) (group_keys key rows).
Proof.
  unfold group_keys. induction (map key rows); simpl;
    [constructor | apply insert_key_proj_sorted; assumption].
Qed.
End ProjectedOrder.

Lemma leb_key_snd {A B} `{OrdLaws A} `{OrdLaws B} (a : A) (b b' : B) :
  leb_key (a, b) (a, b') = true -> leb_key b b' = true.
Proof. unfold leb_key. simpl. rewrite cmp_refl. auto. Qed.

Lemma cmp_lt_first_two {A B C} `{Ord A} `{Ord B} `{Ord C} (k h : A * (B * C)) :
  cmp k h = Lt -> leb_key (fst k, fst (snd k)) (fst h, fst (snd h)) = true.
Proof.
  destruct k as [a [b c]], h as [a' [b' c']]. unfold leb_key. simpl.
  destruct (cmp a a'); try discriminate; auto.
  destruct (cmp b b'); try discriminate; auto.
Qed.

Lemma cmp_gt_first_two {A B C} `{OrdLaws A} `{OrdLaws B} `{Ord C} (k h : A * (B * C)) :
  cmp k h = Gt -> leb_key (fst h, fst (snd h)) (fst k, fst (snd k)) = true.
Proof.
  destruct k as [a [b c]], h as [a' [b' c']]. unfold leb_key. simpl.
  rewrite (cmp_antisym a a'), (cmp_antisym b b').
  destruct (cmp a a'); simpl; try discriminate; auto.
  destruct (cmp b b'); simpl; try discriminate; auto.
Qed.

Lemma df_reports_sorted (df_s12 : list Holding.t) :
  StronglySorted report_le (df_reports df_s12).
Proof.
  unfold df_reports, groupby. rewrite map_map.
  pose proof (group_keys_proj_sorted
                (fun k : Z * (date * (Z * Q)) => (fst k, fst (snd k)))
                cmp_lt_first_two cmp_gt_first_two report_key df_s12) as Hs.
  induction Hs as [|k keys _ IH Hk]; simpl; constructor; [exact IH|].
  rewrite Forall_forall in *. intros r Hr. apply in_map_iff in Hr.
  destruct Hr as (k' & <- & Hk'). apply (Hk k' Hk').
Qed.

Lemma last_valid_map_split {A B} (col : A -> option B) (rows : list A) (v : B) :
  last_valid (map col rows) = Some v ->
  exists before g after,
    rows = before ++ g :: after /\ col g = Some v /\
    Forall (fun x => col x = None) after.
Proof.
  induction rows as [|x rows IH]; simpl; [discriminate|].
  destruct (last_valid (map col rows)) as [u|] eqn:E.
  - intros Eu. injection Eu as ->. destruct (IH eq_refl) as (p & g & q & -> & Hg & Hq).
    exists (x :: p), g, q. auto.
  - intros Ex. exists [], x, rows. split; [reflexivity|]. split; [exact Ex|].
    clear IH Ex. induction rows as [|z rows IH]; [constructor|].
    simpl in E. destruct (last_valid (map col rows)); [discriminate|].
    constructor; [exact E | apply IH; reflexivity].
Qed.

Lemma last_valid_map_none {A B} (col : A -> option B) (rows : list A) :
  last_valid (map col rows) = None -> Forall (fun x => col x = None) rows.
Proof.
  induction rows as [|x rows IH]; simpl; [constructor|].
  destruct (last_valid (map col rows)); [discriminate|].
  intros Ex. constructor; [exact Ex | apply IH; reflexivity].
Qed.

Lemma report_le_same_year (a b : Report.t) :
  Report.year a = Report.year b -> report_le a b -> not_after a b.
Proof.
  unfold report_le, not_after. intros ->. apply leb_key_snd.
Qed.

(** X13. The equity holdings of a fund and year are those of a report row
    with the latest date of that fund and year.  Its assets are those of
    a report row that has assets and is dated no earlier than any other
    row of the fund and year that has assets, and they are missing only
    when no row of the fund and year has assets. *)
Theorem holdings_come_from_the_latest_reports (df_s12 : list Holding.t) (e : Equity.t) :
  let reports := df_reports df_s12 in
  let mine := fun g => In g reports /\ Report.wficn g = Equity.wficn e
                       /\ Report.year g = Equity.year e in
  In e (df_eq reports) ->
  (exists last, mine last /\ Equity.useq_tna_k e = Some (Report.useq_tna_k last) /\
                forall g, mine g -> not_after g last) /\
  match Equity.assets e with
  | Some a =>
      exists g, mine g /\ Report.assets g = Some a /\
                forall g', mine g' -> Report.assets g' <> None -> not_after g' g
  | None => forall g, mine g -> Report.assets g = None
  end.
Proof.
  intros reports mine. unfold df_eq, groupby. rewrite map_map, in_map_iff.
  intros ([w y] & <- & Hk). simpl.
  set (G := group (fun r => (Report.wficn r, Report.year r)) (w, y) reports).
  assert (HG : forall g, In g G <-> mine g).
  { intros g. unfold G, mine. rewrite group_In. simpl. split.
    - intros [Hg E]. injection E as -> ->. auto.
    - intros (Hg & -> & ->). auto. }
  assert (Hs : StronglySorted report_le G).
  { unfold G, group. pose proof (df_reports_sorted df_s12) as Hs. fold reports in Hs.
    rewrite <- (map_id reports) in Hs.
    apply (sorted_map_filter report_le (fun r => r)
             (fun r => eqb_key (Report.wficn r, Report.year r) (w, y))) in Hs.
    rewrite map_id in Hs. exact Hs. }
  assert (Hyear : forall a b, In a G -> In b G -> Report.year a = Report.year b).
  { intros a b Ha Hb. apply HG in Ha, Hb. unfold mine in Ha, Hb. simpl in *.
    intuition congruence. }
  split.
  - assert (Hne : G <> []) by exact (group_nonempty _ _ _ Hk).
    destruct (exists_last Hne) as (G' & last & EG).
    exists last. split; [apply HG; rewrite EG; apply in_elt|].
    split; [fold G; rewrite EG, map_app; simpl; apply last_valid_present|].
    intros g Hg. apply HG in Hg.
    assert (Hlast : In last G) by (rewrite EG; apply in_elt).
    rewrite EG in Hg, Hs. apply in_app_or in Hg. destruct Hg as [Hg|[<-|[]]].
    + apply report_le_same_year.
      * apply Hyear; [rewrite EG; apply in_or_app; left; exact Hg | exact Hlast].
      * apply sorted_app_before in Hs. rewrite Forall_forall in Hs. apply Hs, Hg.
    + unfold not_after. apply leb_key_refl.
  - fold G. destruct (last_valid (map Report.assets G)) as [a|] eqn:Ea.
    + apply last_valid_map_split in Ea. destruct Ea as (p & g & q & EG & Hg & Hq).
      assert (Hgin : In g G) by (rewrite EG; apply in_elt).
      exists g. split; [apply HG; exact Hgin|]. split; [exact Hg|].
      intros g' Hg' Hassets. apply HG in Hg'.
      assert (Hin' : In g' G) by exact Hg'.
      rewrite EG in Hg', Hs. apply in_app_or in Hg'. destruct Hg' as [Hp|[<-|Hq']].
      * apply report_le_same_year; [apply Hyear; assumption|].
        apply sorted_app_before in Hs. rewrite Forall_forall in Hs. apply Hs, Hp.
      * unfold not_after. apply leb_key_refl.
      * rewrite Forall_forall in Hq. specialize (Hq g' Hq'). contradiction.
    + apply last_valid_map_none in Ea. rewrite Forall_forall in Ea.
      intros g Hg. apply Ea, HG, Hg.
Qed.

(** On the small universe fund 7 reports in March and in December 2000:
    its holdings and its assets are those of December. *)
Lemma holdings_come_from_the_latest_reports_witness :
  let reports := df_reports (df_s12_linked sample_s12 sample_mflink2) in
  let e := Equity.mk 7 2000 (Some 15000%Q) (Some (140000 # 1)) in
  In e (df_eq reports) /\
  exists last,
    In last reports /\ Equity.useq_tna_k e = Some (Report.useq_tna_k last) /\
    Report.fdate last = mkdate 2000 Dec 31.
Proof.
  intros reports e.
  assert (He : In e (df_eq reports)) by (vm_compute; auto).
  split; [exact He|].
  destruct (proj1 (holdings_come_from_the_latest_reports
                     (df_s12_linked sample_s12 sample_mflink2) e He))
    as (last & (Hin & Hw & Hy) & Eu & Hlast).
  exists last. split; [exact Hin|]. split; [exact Eu|].
  assert (Hdec : In (Report.mk 2000 (mkdate 2000 Dec 31) 7 (Some 15000%Q) (140000 # 1))
                   reports) by (vm_compute; auto).
  specialize (Hlast _ (conj Hdec (conj eq_refl eq_refl))).
  vm_compute in Hin.
  destruct Hin as [<-|[<-|[<-|[]]]]; try reflexivity; try discriminate.
Defined.

(** ** The share of missing TNA *)

Local Open Scope Q_scope.

Lemma Qsum_indicator (col : list float) :
  Qsum (map (fun v => if isnull v then 1 else 0) col)
  == inject_Z (Z.of_nat (length (filter isnull col))).
Proof.
  induction col as [|v col IH]; simpl; [reflexivity|].
  fold (Qsum (map (fun v => if isnull v then 1 else 0) col)). rewrite IH.
  destruct (isnull v); simpl length; [|ring].
  rewrite Nat2Z.inj_succ, <- Z.add_1_l, inject_Z_plus. reflexivity.
Qed.

(** X14. The share of missing values that the notebook looks at is
    undefined on an empty column and otherwise the number of missing
    values over the number of rows: a number between 0 and 1, 0 exactly
    when no value is missing and 1 exactly when all are. *)
Theorem isnull_mean_is_a_share (col : list float) :
  (isnull_mean col = None <-> col = []) /\
  forall q, isnull_mean col = Some q ->
    q == inject_Z (Z.of_nat (length (filter isnull col)))
         / inject_Z (Z.of_nat (length col)) /\
    0 <= q <= 1 /\
    (q == 0 <-> forall v, In v col -> v <> None) /\
    (q == 1 <-> forall v, In v col -> v = None).
Proof.
  split.
  - destruct col; simpl; split; congruence.
  - intros q Eq.
    set (m := length (filter isnull col)). set (n := length col).
    assert (Hn : (0 < n)%nat) by (unfold n; destruct col; [discriminate | simpl; lia]).
    assert (Hm : (m <= n)%nat) by apply filter_length_le.
    assert (Hnq : 0 < inject_Z (Z.of_nat n)).
    { rewrite <- (Zlt_Qlt 0). lia. }
    assert (E : q == inject_Z (Z.of_nat m) / inject_Z (Z.of_nat n)).
    { assert (Eq' : q = mean (map (fun v => if isnull v then 1 else 0) col)).
      { destruct col; [discriminate|]. unfold isnull_mean in Eq.
        injection Eq as <-. reflexivity. }
      rewrite Eq'. unfold mean. rewrite Qsum_indicator, length_map. reflexivity. }
    assert (Hmul : q * inject_Z (Z.of_nat n) == inject_Z (Z.of_nat m)).
    { rewrite E. field. lra. }
    split; [exact E|].
    assert (Hm0 : 0 <= inject_Z (Z.of_nat m)) by (rewrite <- (Zle_Qle 0); lia).
    assert (Hmn : inject_Z (Z.of_nat m) <= inject_Z (Z.of_nat n))
      by (rewrite <- Zle_Qle; lia).
    split; [|split].
    + split.
      * rewrite E. apply Qle_shift_div_l; [exact Hnq | lra].
      * rewrite E. apply Qle_shift_div_r; [exact Hnq | lra].
    + split.
      * intros E0 v Hv ->. rewrite E0 in Hmul.
        assert (m = 0%nat).
        { apply Nat2Z.inj, (proj1 (inject_Z_injective _ _)). rewrite <- Hmul. ring. }
        assert (Hin : In None (filter isnull col)) by (apply filter_In; auto).
        unfold m in H. destruct (filter isnull col); [contradiction | discriminate].
      * intros Hall.
        assert (m = 0%nat).
        { unfold m. rewrite filter_none; [reflexivity|].
          intros v Hv. specialize (Hall v Hv). destruct v; [reflexivity | congruence]. }
        rewrite E, H. simpl. field. lra.
    + split.
      * intros E1 v Hv. rewrite E1 in Hmul.
        assert (Hmn' : m = n).
        { apply Nat2Z.inj, (proj1 (inject_Z_injective _ _)). rewrite <- Hmul. ring. }
        destruct v as [x|]; [exfalso | reflexivity].
        unfold m, n in Hmn'. apply filter_length_forallb in Hmn'.
        rewrite forallb_forall in Hmn'. specialize (Hmn' _ Hv). discriminate.
      * intros Hall.
        assert (Hmn' : m = n).
        { unfold m, n. f_equal. apply forallb_filter_id. apply forallb_forall.
          intros v Hv. rewrite (Hall v Hv). reflexivity. }
        rewrite E, Hmn'. field. lra.
Qed.

(** One TNA out of four is missing. *)
Lemma isnull_mean_is_a_share_witness :
  let col := [Some 90; None; Some 95; Some 100] in
  isnull_mean col = Some (1 # 4) /\ 0 <= 1 # 4 <= 1.
Proof.
  intros col. split; [reflexivity|].
  apply (proj2 (isnull_mean_is_a_share col) (1 # 4) eq_refl).
Defined.

(** ** The summary by year *)

Local Open Scope Q_scope.

Lemma dropna_present {A} (col : A -> Q) (rows : list A) :
  dropna (map (fun r => Some (col r)) rows) = map col rows.
Proof.
  unfold dropna. induction rows as [|r rows IH]; simpl; [reflexivity|].
  rewrite IH. reflexivity.
Qed.

Lemma Qsum_lower (c : Q) (vals : list Q) :
  (forall x, In x vals -> c <= x) ->
  c * inject_Z (Z.of_nat (length vals)) <= Qsum vals.
Proof.
  induction vals as [|x vals IH]; intros Hall.
  - change (c * 0 <= 0). lra.
  - simpl length. rewrite Nat2Z.inj_succ, <- Z.add_1_l, inject_Z_plus.
    simpl Qsum. fold (Qsum vals). change (inject_Z 1) with 1.
    assert (c <= x) by (apply Hall; left; reflexivity).
    assert (c * inject_Z (Z.of_nat (length vals)) <= Qsum vals)
      by (apply IH; intros; apply Hall; right; assumption).
    lra.
Qed.

Lemma mean_lower (c : Q) (vals : list Q) :
  vals <> [] -> (forall x, In x vals -> c <= x) -> c <= mean vals.
Proof.
  intros Hne Hall. unfold mean. apply Qle_shift_div_l.
  - rewrite <- (Zlt_Qlt 0). destruct vals; [contradiction | simpl; lia].
  - apply Qsum_lower. exact Hall.
Qed.

Lemma median_lower (c : Q) (col : list float) :
  dropna col <> [] -> (forall x, In x (dropna col) -> c <= x) ->
  exists d, median_skipna col = Some d /\ c <= d.
Proof.
  intros Hne Hall. unfold median_skipna.
  set (vals := sort_values (fun q : Q => q) (dropna col)).
  assert (Hvals : forall x, In x vals -> c <= x).
  { intros x Hx. apply Hall. apply (sort_values_In (fun q : Q => q)). exact Hx. }
  assert (Hlen : length vals = length (dropna col))
    by (apply Permutation_length, sort_values_perm).
  assert (Hpos : (0 < length vals)%nat).
  { rewrite Hlen. destruct (dropna col); [contradiction | simpl; lia]. }
  destruct (length vals) as [|k] eqn:En; [lia|]. rewrite <- En.
  assert (Hmid : (length vals / 2 < length vals)%nat)
    by (apply Nat.div_lt; lia).
  destruct (Nat.odd (length vals)).
  - eexists. split; [reflexivity|]. apply Hvals, nth_In. exact Hmid.
  - eexists. split; [reflexivity|].
    assert (c <= nth (length vals / 2 - 1) vals 0) by (apply Hvals, nth_In; lia).
    assert (c <= nth (length vals / 2) vals 0) by (apply Hvals, nth_In; exact Hmid).
    apply Qle_shift_div_l; lra.
Qed.

Lemma rint_floor (q : Q) : (Qfloor q <= rint q <= Qfloor q + 1)%Z.
Proof.
  unfold rint. destruct (q - inject_Z (Qfloor q) ?= 1 # 2); [|lia|lia].
  destruct (Z.even (Qfloor q)); lia.
Qed.

Lemma rint_lower (z : Z) (q : Q) : inject_Z z <= q -> (z <= rint q)%Z.
Proof.
  intros Hz. apply Qfloor_resp_le in Hz. rewrite Qfloor_Z in Hz.
  pose proof (rint_floor q). lia.
Qed.

Lemma rint_near (q : Q) : q - (1 # 2) <= inject_Z (rint q) <= q + (1 # 2).
Proof.
  pose proof (Qfloor_le q) as Hlo. pose proof (Qlt_floor q) as Hhi.
  rewrite inject_Z_plus in Hhi. change (inject_Z 1) with 1 in Hhi. unfold rint.
  destruct (q - inject_Z (Qfloor q) ?= 1 # 2) eqn:E.
  - apply Qeq_alt in E. destruct (Z.even (Qfloor q));
      [|rewrite inject_Z_plus; change (inject_Z 1) with 1]; lra.
  - apply Qlt_alt in E. lra.
  - apply Qgt_alt in E. rewrite inject_Z_plus. change (inject_Z 1) with 1. lra.
Qed.

Lemma round2_near (q r : Q) :
  round2 (Some q) = Some r -> q - (1 # 200) <= r <= q + (1 # 200).
Proof.
  simpl. intros E. injection E as <-. pose proof (rint_near (q * 100)) as H.
  split.
  - apply Qle_shift_div_l; lra.
  - apply Qle_shift_div_r; lra.
Qed.

Lemma round2_lower (q : Q) :
  1 <= q -> exists r, round2 (Some q) = Some r /\ 1 <= r.
Proof.
  intros Hq. eexists. split; [reflexivity|].
  assert (H : (100 <= rint (q * 100))%Z).
  { apply rint_lower. change (inject_Z 100) with 100. lra. }
  apply Qle_shift_div_l; [lra|]. rewrite Zle_Qle in H. change (inject_Z 100) with 100 in H.
  lra.
Qed.

Lemma summary_years (df : list ComboE.t) :
  map Summary.year (summary df)
  = map fst (year_counts (fun r => Combo.year (ComboE.base r)) df).
Proof. unfold summary, year_counts. rewrite !map_map. reflexivity. Qed.

(** X16. The summary of the last table has one line for each of its
    years, in increasing order like the counts.  On each line the mean
    and the median of the year-end TNA are numbers, not below 1 (the
    first filter keeps TNA above 1 only), and the mean shown is within
    half a hundredth of the mean of the year's TNA. *)
Theorem summary_of_the_last_table
    (df : list Combo.t) (t : list ComboT.t) (e : list ComboE.t) :
  add_tna_ratio (filter_tna df) = Ok t ->
  add_eq_ratios (filter_tna_ratio t) = Ok e ->
  let out := filter_eq_ratio e in
  let year := fun r => Combo.year (ComboE.base r) in
  map Summary.year (summary out) = map fst (year_counts year out) /\
  forall s, In s (summary out) ->
    let tna := map (fun r => Combo.crsp_tna (ComboE.base r))
                 (group year (Summary.year s) out) in
    exists m d,
      Summary.tna_mean s = Some m /\ Summary.tna_median s = Some d /\
      1 <= m /\ 1 <= d /\
      mean tna - (1 # 200) <= m <= mean tna + (1 # 200).
Proof.
  intros Et Ee out year. split; [apply summary_years|].
  intros s Hs tna. unfold summary, groupby in Hs. rewrite map_map in Hs.
  apply in_map_iff in Hs. destruct Hs as (y & <- & Hy). simpl in *.
  fold year in tna, Hy |- *. fold tna.
  assert (Hne : tna <> []).
  { intros E. apply map_eq_nil in E. exact (group_nonempty _ _ _ Hy E). }
  assert (Hall : forall x, In x tna -> 1 <= x).
  { intros x Hx. apply in_map_iff in Hx. destruct Hx as (r & <- & Hr).
    apply group_In in Hr. destruct Hr as [Hr _].
    apply filter_In in Hr. destruct Hr as [Hr _].
    destruct (add_eq_ratios_rows _ _ Ee) as [_ Hrows].
    destruct (Hrows r Hr) as (Hrow & _). apply filter_In in Hrow.
    destruct Hrow as [Hrow _].
    destruct (add_tna_ratio_rows _ _ Et) as [_ Hrows'].
    destruct (Hrows' _ Hrow) as [Hb _]. apply filter_In in Hb.
    destruct Hb as [_ Hgt]. apply Qltb_lt in Hgt. apply Qlt_le_weak. exact Hgt. }
  assert (Edrop : dropna (map (fun r => Some (Combo.crsp_tna (ComboE.base r)))
                            (group year y out)) = tna) by apply dropna_present.
  assert (Emean : mean_skipna (map (fun r => Some (Combo.crsp_tna (ComboE.base r)))
                                 (group year y out)) = Some (mean tna)).
  { unfold mean_skipna. rewrite Edrop. destruct tna; [contradiction | reflexivity]. }
  destruct (median_lower 1 (map (fun r => Some (Combo.crsp_tna (ComboE.base r)))
                              (group year y out))) as (d0 & Ed0 & Hd0).
  { rewrite Edrop. exact Hne. }
  { rewrite Edrop. exact Hall. }
  rewrite Emean, Ed0.
  destruct (round2_lower (mean tna) (mean_lower 1 tna Hne Hall)) as (m & Em & Hm).
  destruct (round2_lower d0 Hd0) as (d & Ed & Hd).
  exists m, d. split; [exact Em|]. split; [exact Ed|]. split; [exact Hm|].
  split; [exact Hd|]. apply round2_near. exact Em.
Qed.

(** Two records of 2000 with TNA 10 and 2.005: the mean 6.0025 is shown
    as 6, the median likewise. *)
Lemma summary_of_the_last_table_witness :
  let df := [Combo.mk 1 2000 10 (Some (1 # 10)) None (Some 9000);
             Combo.mk 2 2000 (2005 # 1000) (Some (3 # 10)) None (Some 2000)] in
  exists t e,
    add_tna_ratio (filter_tna df) = Ok t /\
    add_eq_ratios (filter_tna_ratio t) = Ok e /\
    map Summary.tna_mean (summary (filter_eq_ratio e)) = [Some (600 # 100)] /\
    map Summary.year (summary (filter_eq_ratio e))
    = map fst (year_counts (fun r => Combo.year (ComboE.base r)) (filter_eq_ratio e)).
Proof.
  intros df. eexists. eexists.
  split; [vm_compute; reflexivity|]. split; [vm_compute; reflexivity|].
  split; [vm_compute; reflexivity|].
  eapply (summary_of_the_last_table df); vm_compute; reflexivity.
Defined.

(** ** The small universe again *)

Local Open Scope Z_scope.

(** Fund 7 has returns and TNA for 2000, fund 8 for 2001. *)
Lemma returns_and_tna_cover_the_same_fund_years_witness :
  let D := clean_crsp sample_crsp sample_mflink1 in
  map FundYear.crsp_clean (df_crsp_clean D) = [(7, 2000); (8, 2001)] /\
  In (7, 2000) (map FundYear.tna (df_tna D)).
Proof.
  intros D. split; [vm_compute; reflexivity|].
  apply (proj1 (returns_and_tna_cover_the_same_fund_years D) 7 2000).
  vm_compute. auto.
Defined.

Lemma year_counts_partition_witness :
  let df := joined sample_crsp sample_mflink1 sample_s12 sample_mflink2 in
  year_counts Combo.year df = [(2000, 1%nat); (2001, 1%nat)] /\
  (1%nat = length (filter (fun r => Combo.year r =? 2000) df) /\ (0 < 1)%nat).
Proof.
  intros df. split; [vm_compute; reflexivity|].
  assert (Hin : In (2000, 1%nat) (year_counts Combo.year df)) by (vm_compute; auto).
  exact (proj1 (proj1 (proj2 (year_counts_partition Combo.year df)) 2000 1%nat) Hin).
Defined.

